(** * Support_System: the ticket chat workflow

    A shallow embedding of the ticket conversation component
    ([TicketChat]: [loadMessages], [sendMessage], [updateTicketStatus],
    [handleResolutionChoice] and the buttons that reach them) together
    with the part of the database schema it talks to (tables, CHECK
    constraints, the [updated_at] trigger and the row-level security
    policies of the initial migration).  Around it: [signIn] and the
    login form, the route table with [ProtectedRoute], and the
    search boxes of the staff lists.

    Conventions of the embedding:
    - a [uuid] is an opaque identifier, modelled as a [nat]; the database
      draws fresh ones from a counter ([gen_random_uuid()]);
    - a [timestamptz] is a [nat] read from the server clock [now];
    - a [text] column or JS string is the [string] of its UTF-16 code
      units, for the texts whose code units are all below 256 (Basic
      Latin and Latin-1 Supplement); on these [trim] and [toLowerCase]
      below are the functions of the language;
    - tables with a primary key that are updated in place are [gmap]s,
      append-only tables are lists kept in commit order;
    - the policies are fixed by the migrations, except that the two
      policies on [users] whose condition selects from [users] itself
      are kept with the store, as the list of those in force: while one
      of them is in force PostgreSQL cannot expand any policy that looks
      at [users], and no migration drops them. *)

From stdpp Require Import gmap strings list fin_maps sorting.

(** ** Database types ([src/lib/supabase.ts]) *)

(** [role text CHECK (role IN ('customer','super_admin','supervisory_admin','agent'))] *)
Inductive Role := customer | super_admin | supervisory_admin | agent.

Global Instance Role_eq_dec : EqDecision Role.
Proof. solve_decision. Defined.

Module User.
Record t := mk {
  id : nat;
  email : string;
  name : string;
  role : Role;
  organisation_id : option nat;
  team_id : option nat;
  key : option string;
  is_verified : bool
}.
End User.

Module Team.
Record t := mk { id : nat; name : string; tag : string }.
End Team.

Module Ticket.
Record t := mk {
  id : nat;
  title : string;
  description : string;
  customer_id : nat;
  team_tag : option string;
  assigned_agent_id : option nat;
  status : string;
  created_at : nat;
  updated_at : nat
}.

(** [{ ...prev, status }] and [UPDATE ... SET status = s] *)
Definition with_status (s : string) (x : t) : t :=
  mk (id x) (title x) (description x) (customer_id x) (team_tag x)
     (assigned_agent_id x) s (created_at x) (updated_at x).

(** the [update_updated_at_column] trigger: [NEW.updated_at = now()] *)
Definition with_updated_at (n : nat) (x : t) : t :=
  mk (id x) (title x) (description x) (customer_id x) (team_tag x)
     (assigned_agent_id x) (status x) (created_at x) n.
End Ticket.

Module TicketMessage.
Record t := mk {
  id : nat;
  ticket_id : nat;
  user_id : nat;
  message : string;
  created_at : nat
}.
End TicketMessage.

(** The values found in the [details] JSON objects written by the chat. *)
Inductive json := JString (s : string) | JUuid (i : nat).

Global Instance json_eq_dec : EqDecision json.
Proof. solve_decision. Defined.

Module ActivityLog.
Record t := mk {
  id : nat;
  user_id : nat;
  action : string;
  details : list (string * json);
  created_at : nat
}.
End ActivityLog.

Module TicketEscalation.
Record t := mk {
  id : nat;
  ticket_id : nat;
  suggested_by_agent_id : nat;
  status : string;
  reason : option string;
  created_at : nat;
  updated_at : nat
}.
End TicketEscalation.

(** ** The data store *)

(** The policies on [users] whose USING expression reads [users] again:
    "Super admins can manage all users" (FOR ALL,
    [EXISTS (SELECT 1 FROM users WHERE users.id = auth.uid() AND
    users.role = 'super_admin')]) and "Supervisory admins can view team
    members" (FOR SELECT, [EXISTS (SELECT 1 FROM users u JOIN
    team_supervisors ts ...)]). *)
Inductive self_referencing_policy :=
| Super_admins_can_manage_all_users
| Supervisory_admins_can_view_team_members.

Record db := mk_db {
  users : gmap nat User.t;
  teams : gmap nat Team.t;
  tickets : gmap nat Ticket.t;
  ticket_messages : list TicketMessage.t;
  activity_logs : list ActivityLog.t;
  ticket_escalations : list TicketEscalation.t;
  now : nat;
  next_uuid : nat;
  self_referencing : list self_referencing_policy
}.

(** What the initial migration creates. *)
Definition initial_migration : list self_referencing_policy :=
  [Super_admins_can_manage_all_users; Supervisory_admins_can_view_team_members].

(** The store carries the policies as the migrations leave them. *)
Definition as_migrated (d : db) : Prop := self_referencing d = initial_migration.

Definition set_tickets (m : gmap nat Ticket.t) (d : db) : db :=
  mk_db (users d) (teams d) m (ticket_messages d) (activity_logs d)
        (ticket_escalations d) (now d) (next_uuid d) (self_referencing d).

(** A committed INSERT: the row goes to the end of its table and the
    identifier it was given is used up. *)
Definition commit_ticket_message (m : TicketMessage.t) (d : db) : db :=
  mk_db (users d) (teams d) (tickets d) (ticket_messages d ++ [m])
        (activity_logs d) (ticket_escalations d) (now d) (S (next_uuid d))
        (self_referencing d).

Definition commit_activity_log (a : ActivityLog.t) (d : db) : db :=
  mk_db (users d) (teams d) (tickets d) (ticket_messages d)
        (activity_logs d ++ [a]) (ticket_escalations d) (now d) (S (next_uuid d))
        (self_referencing d).

Definition commit_ticket_escalation (e : TicketEscalation.t) (d : db) : db :=
  mk_db (users d) (teams d) (tickets d) (ticket_messages d) (activity_logs d)
        (ticket_escalations d ++ [e]) (now d) (S (next_uuid d)) (self_referencing d).

(** Time passing on the server between two requests. *)
Definition tick (dt : nat) (d : db) : db :=
  mk_db (users d) (teams d) (tickets d) (ticket_messages d) (activity_logs d)
        (ticket_escalations d) (now d + dt) (next_uuid d) (self_referencing d).

(** What a refused statement reports back: SQLSTATE 42501, 23514, 23503
    and 42P17, and the answer of [.single()] to a result that is not one
    row. *)
Inductive pg_error :=
| rls_violation (table : string)
| check_violation (constraint : string)
| foreign_key_violation (constraint : string)
| infinite_recursion (relation : string)
| not_a_single_row.

(** ** Constraints and row-level security policies (initial migration) *)

(** [CHECK (status IN ('open', 'closed', 'resolved', 'unresolved'))] *)
Definition tickets_status_check (s : string) : bool :=
  bool_decide (s ∈ ["open"; "closed"; "resolved"; "unresolved"]).

(** [CHECK (status IN ('pending', 'approved', 'rejected'))] *)
Definition escalations_status_check (s : string) : bool :=
  bool_decide (s ∈ ["pending"; "approved"; "rejected"]).

(** [users.role IN ('super_admin', 'supervisory_admin', 'agent')] *)
Definition is_staff (r : Role) : bool :=
  match r with
  | super_admin | supervisory_admin | agent => true
  | customer => false
  end.

(** The policies below are granted [TO authenticated]: a session that is not
    signed in ([uid] is [None]) runs as [anon], no policy applies to it
    and every row is hidden from it.  For a signed-in session a statement
    whose policies look at [users] has the policies of [users] expanded
    in turn; a self-referencing policy asks for them once more, and
    PostgreSQL stops with 42P17, "infinite recursion detected in policy
    for relation users", before any row is looked at. *)
Definition policy_recursion (d : db) (uid : option nat) : bool :=
  match uid, self_referencing d with
  | Some _, _ :: _ => true
  | _, _ => false
  end.

(** [SELECT ... FROM users WHERE users.id = auth.uid()] inside a policy,
    where the policies of [users] can be expanded: "Users can view their
    own profile" ([auth.uid() = id]) lets the session see its own row. *)
Definition current_user (d : db) (uid : option nat) : option User.t :=
  uid ≫= λ i, users d !! i.

Definition current_role_in (d : db) (uid : option nat) (p : Role → bool) : bool :=
  match current_user d uid with
  | Some u => p (User.role u)
  | None => false
  end.

(** "Customers can view their own tickets" (SELECT, USING) *)
Definition policy_tickets_select (d : db) (uid : option nat) (t : Ticket.t) : bool :=
  match uid with
  | Some i => bool_decide (Ticket.customer_id t = i) || current_role_in d uid is_staff
  | None => false
  end.

(** "Admins and agents can update tickets" (UPDATE, USING) *)
Definition policy_tickets_update (d : db) (uid : option nat) (t : Ticket.t) : bool :=
  current_role_in d uid is_staff.

(** The condition shared by the two [ticket_messages] policies:
    [EXISTS (SELECT 1 FROM tickets t JOIN users u ON u.id = auth.uid()
             WHERE t.id = ticket_messages.ticket_id
             AND (t.customer_id = auth.uid() OR u.role IN (...)))] *)
Definition ticket_accessible (d : db) (uid : option nat) (ticket_id : nat) : bool :=
  match uid, tickets d !! ticket_id, current_user d uid with
  | Some i, Some t, Some u =>
      bool_decide (Ticket.customer_id t = i) || is_staff (User.role u)
  | _, _, _ => false
  end.

(** "Users can view messages for accessible tickets" (SELECT, USING) *)
Definition policy_messages_select (d : db) (uid : option nat) (m : TicketMessage.t) : bool :=
  ticket_accessible d uid (TicketMessage.ticket_id m).

(** "Users can send messages to accessible tickets" (INSERT, WITH CHECK) *)
Definition policy_messages_insert (d : db) (uid : option nat)
    (ticket_id user_id : nat) : bool :=
  bool_decide (Some user_id = uid) && ticket_accessible d uid ticket_id.

(** "Users can create their own activity logs" (INSERT, WITH CHECK) *)
Definition policy_activity_logs_insert (uid : option nat) (user_id : nat) : bool :=
  bool_decide (Some user_id = uid).

(** "Agents can create escalations" (INSERT, WITH CHECK) *)
Definition policy_agents_create_escalations (d : db) (uid : option nat)
    (suggested_by_agent_id : nat) : bool :=
  bool_decide (Some suggested_by_agent_id = uid)
  && current_role_in d uid (λ r, bool_decide (r = agent)).

(** "Supervisors can manage escalations" (ALL, USING; for an INSERT the
    USING expression is the check on the new row) *)
Definition policy_supervisors_manage_escalations (d : db) (uid : option nat) : bool :=
  current_role_in d uid
    (λ r, bool_decide (r = super_admin) || bool_decide (r = supervisory_admin)).

(** Policies on one table for one command are permissive: any of them admits. *)
Definition policy_escalations_insert (d : db) (uid : option nat)
    (suggested_by_agent_id : nat) : bool :=
  policy_agents_create_escalations d uid suggested_by_agent_id
  || policy_supervisors_manage_escalations d uid.

(** ** Statements issued by the chat *)

(** [from('tickets').update({ status }).eq('id', id)].
    The SELECT and UPDATE policies of [tickets] both look at [users].
    A row the policies hide is not touched and nothing is reported;
    a row that is touched must satisfy the CHECK constraint, and the
    BEFORE UPDATE trigger stamps [updated_at].  The result carries the
    number of rows written. *)
Definition pg_update_ticket_status (uid : option nat) (id : nat) (s : string)
    (d : db) : db * (pg_error + nat) :=
  if policy_recursion d uid then (d, inl (infinite_recursion "users")) else
  match tickets d !! id with
  | Some t =>
      if policy_tickets_select d uid t && policy_tickets_update d uid t then
        if tickets_status_check s then
          (set_tickets
             (<[id := Ticket.with_updated_at (now d) (Ticket.with_status s t)]>
                (tickets d)) d,
           inr 1)
        else (d, inl (check_violation "tickets_status_check"))
      else (d, inr 0)
  | None => (d, inr 0)
  end.

(** [from('ticket_messages').insert({ ticket_id, user_id, message })] *)
Definition pg_insert_ticket_message (uid : option nat)
    (ticket_id user_id : nat) (message : string) (d : db) : db * option pg_error :=
  if policy_recursion d uid then (d, Some (infinite_recursion "users")) else
  if policy_messages_insert d uid ticket_id user_id then
    (commit_ticket_message
       (TicketMessage.mk (next_uuid d) ticket_id user_id message (now d)) d,
     None)
  else (d, Some (rls_violation "ticket_messages")).

(** [from('activity_logs').insert({ user_id, action, details })]; the
    policy compares [user_id] with [auth.uid()] and looks at no table,
    and the foreign key is checked without regard to policies. *)
Definition pg_insert_activity_log (uid : option nat)
    (user_id : nat) (action : string) (details : list (string * json))
    (d : db) : db * option pg_error :=
  if policy_activity_logs_insert uid user_id then
    match users d !! user_id with
    | Some _ =>
        (commit_activity_log
           (ActivityLog.mk (next_uuid d) user_id action details (now d)) d,
         None)
    | None => (d, Some (foreign_key_violation "activity_logs_user_id_fkey"))
    end
  else (d, Some (rls_violation "activity_logs")).

(** [from('ticket_escalations').insert({ ticket_id, suggested_by_agent_id,
    status, reason })] *)
Definition pg_insert_ticket_escalation (uid : option nat)
    (ticket_id suggested_by_agent_id : nat) (status : string)
    (reason : option string) (d : db) : db * option pg_error :=
  if policy_recursion d uid then (d, Some (infinite_recursion "users")) else
  if policy_escalations_insert d uid suggested_by_agent_id then
    if escalations_status_check status then
      match tickets d !! ticket_id, users d !! suggested_by_agent_id with
      | Some _, Some _ =>
          (commit_ticket_escalation
             (TicketEscalation.mk (next_uuid d) ticket_id
                suggested_by_agent_id status reason (now d) (now d)) d,
           None)
      | None, _ =>
          (d, Some (foreign_key_violation "ticket_escalations_ticket_id_fkey"))
      | _, None =>
          (d, Some (foreign_key_violation
                      "ticket_escalations_suggested_by_agent_id_fkey"))
      end
    else (d, Some (check_violation "ticket_escalations_status_check"))
  else (d, Some (rls_violation "ticket_escalations")).

(** [ORDER BY created_at ASC], as an insertion sort. *)
Definition earlier (a b : TicketMessage.t) : Prop :=
  TicketMessage.created_at a ≤ TicketMessage.created_at b.

Global Instance earlier_dec a b : Decision (earlier a b).
Proof. unfold earlier. apply _. Defined.

Fixpoint insert_by_created_at (m : TicketMessage.t) (l : list TicketMessage.t)
    : list TicketMessage.t :=
  match l with
  | [] => [m]
  | x :: r =>
      if bool_decide (earlier m x)
      then m :: x :: r
      else x :: insert_by_created_at m r
  end.

Definition order_by_created_at (l : list TicketMessage.t) : list TicketMessage.t :=
  foldr insert_by_created_at [] l.

(** The rows of [ticket_messages] that belong to one ticket, in commit order. *)
Definition messages_of (ticket_id : nat) (d : db) : list TicketMessage.t :=
  filter (λ m, TicketMessage.ticket_id m = ticket_id) (ticket_messages d).

(** [from('ticket_messages').select(...).eq('ticket_id', id)
      .order('created_at', { ascending: true })];
    rows the SELECT policy hides are left out. *)
Definition pg_select_ticket_messages (uid : option nat) (ticket_id : nat)
    (d : db) : pg_error + list TicketMessage.t :=
  if policy_recursion d uid then inl (infinite_recursion "users")
  else inr (order_by_created_at
              (filter (λ m, policy_messages_select d uid m = true)
                      (messages_of ticket_id d))).

(** [from('users').select('*').eq('id', id).single()]: without the
    self-referencing policies the one row a session sees is its own. *)
Definition pg_select_user (uid : option nat) (id : nat) (d : db)
    : pg_error + User.t :=
  if policy_recursion d uid then inl (infinite_recursion "users")
  else
    match (if bool_decide (uid = Some id) then users d !! id else None) with
    | Some u => inr u
    | None => inl not_a_single_row
    end.

(** ** JS strings *)

(** [String.prototype.trim] removes white space and line terminators;
    below 256 these are tab, line feed, vertical tab, form feed, carriage
    return, space and no-break space. *)
Definition is_whitespace (c : Ascii.ascii) : bool :=
  bool_decide (Ascii.nat_of_ascii c ∈ [9; 10; 11; 12; 13; 32; 160]).

Fixpoint trimStart (s : string) : string :=
  match s with
  | EmptyString => EmptyString
  | String c r => if is_whitespace c then trimStart r else s
  end.

Fixpoint trimEnd (s : string) : string :=
  match s with
  | EmptyString => EmptyString
  | String c r =>
      match trimEnd r with
      | EmptyString => if is_whitespace c then EmptyString else String c EmptyString
      | r' => String c r'
      end
  end.

Definition trim (s : string) : string := trimEnd (trimStart s).

(** A body that is empty or made of white space only. *)
Fixpoint blank (s : string) : bool :=
  match s with
  | EmptyString => true
  | String c r => is_whitespace c && blank r
  end.

(** ** The chat component ([TicketChat]) *)

(** The props and [useState] cells of the component, the profile handed
    out by [useAuth], and the form's message field with its error.  The
    user rows joined to the loaded messages and the presence list are
    display data and are left out. *)
Record component := mk_component {
  ticket : Ticket.t;
  userProfile : option User.t;
  messages : list TicketMessage.t;
  loading : bool;
  sending : bool;
  ticketData : Ticket.t;
  showResolutionOptions : bool;
  draft : string;
  form_error : option string
}.

(** The browser session next to the store it talks to: [auth_uid] is what
    [auth.uid()] evaluates to on the server for this session. *)
Record world := mk_world {
  store : db;
  auth_uid : option nat;
  ui : component;
  console : list string
}.

(** How a handler ends: with a value, or with an exception in flight. *)
Inductive completion (A : Type) :=
| Returned (a : A)
| Thrown (e : string).
Arguments Returned {A} a.
Arguments Thrown {A} e.

Definition js (A : Type) : Type := world → world * completion A.

Global Instance js_ret : MRet js := λ A a w, (w, Returned a).

Global Instance js_bind : MBind js := λ A B k m w,
  match m w with
  | (w', Returned a) => k a w'
  | (w', Thrown e) => (w', Thrown e)
  end.

Definition throw {A} (e : string) : js A := λ w, (w, Thrown e).

(** [try { body } catch (error) { handler }] *)
Definition try_catch {A} (body : js A) (handler : string → js A) : js A := λ w,
  match body w with
  | (w', Returned a) => (w', Returned a)
  | (w', Thrown e) => handler e w'
  end.

(** [try { body } finally { cleanup }] *)
Definition try_finally {A} (body : js A) (cleanup : js unit) : js A := λ w,
  match body w with
  | (w', r) =>
      match cleanup w' with
      | (w'', Returned _) => (w'', r)
      | (w'', Thrown e) => (w'', Thrown e)
      end
  end.

Definition get_ui : js component := λ w, (w, Returned (ui w)).

Definition set_ui (f : component → component) : js unit := λ w,
  (mk_world (store w) (auth_uid w) (f (ui w)) (console w), Returned ()).

Definition console_error (line : string) : js unit := λ w,
  (mk_world (store w) (auth_uid w) (ui w) (console w ++ [line]), Returned ()).

(** A request to the store, sent under the session's credentials. *)
Definition await {A} (stmt : option nat → db → db * A) : js A := λ w,
  match stmt (auth_uid w) (store w) with
  | (d, a) => (mk_world d (auth_uid w) (ui w) (console w), Returned a)
  end.

(** [x!.id] on a [null] value *)
Definition non_null {A} (x : option A) : js A :=
  match x with
  | Some a => mret a
  | None => throw "TypeError: Cannot read properties of null"
  end.

Definition setMessages (l : list TicketMessage.t) : js unit :=
  set_ui (λ c, mk_component (ticket c) (userProfile c) l (loading c) (sending c)
                 (ticketData c) (showResolutionOptions c) (draft c) (form_error c)).

Definition setLoading (b : bool) : js unit :=
  set_ui (λ c, mk_component (ticket c) (userProfile c) (messages c) b (sending c)
                 (ticketData c) (showResolutionOptions c) (draft c) (form_error c)).

Definition setSending (b : bool) : js unit :=
  set_ui (λ c, mk_component (ticket c) (userProfile c) (messages c) (loading c) b
                 (ticketData c) (showResolutionOptions c) (draft c) (form_error c)).

Definition setTicketData (f : Ticket.t → Ticket.t) : js unit :=
  set_ui (λ c, mk_component (ticket c) (userProfile c) (messages c) (loading c)
                 (sending c) (f (ticketData c)) (showResolutionOptions c)
                 (draft c) (form_error c)).

Definition setShowResolutionOptions (b : bool) : js unit :=
  set_ui (λ c, mk_component (ticket c) (userProfile c) (messages c) (loading c)
                 (sending c) (ticketData c) b (draft c) (form_error c)).

(** the form's [reset()] *)
Definition reset : js unit :=
  set_ui (λ c, mk_component (ticket c) (userProfile c) (messages c) (loading c)
                 (sending c) (ticketData c) (showResolutionOptions c) "" None).

Definition set_form (body : string) (err : option string) : js unit :=
  set_ui (λ c, mk_component (ticket c) (userProfile c) (messages c) (loading c)
                 (sending c) (ticketData c) (showResolutionOptions c) body err).

(** [loadMessages] *)
Definition loadMessages : js unit :=
  c ← get_ui;
  r ← await (λ uid d, (d, pg_select_ticket_messages uid (Ticket.id (ticket c)) d));
  match r with
  | inr data => setMessages data
  | inl _ => mret ()
  end;;
  setLoading false.

(** [sendMessage] *)
Definition sendMessage (message : string) : js unit :=
  c ← get_ui;
  match userProfile c with
  | None => mret ()
  | Some u =>
      if bool_decide (trim message = "") then mret ()
      else
        setSending true;;
        try_finally
          (try_catch
             (error ← await (λ uid, pg_insert_ticket_message uid
                               (Ticket.id (ticket c)) (User.id u) (trim message));
              match error with
              | None =>
                  reset;;
                  _ ← await (λ uid, pg_insert_activity_log uid (User.id u)
                               "Sent message in ticket"
                               [("ticket_id", JUuid (Ticket.id (ticket c)));
                                ("ticket_title", JString (Ticket.title (ticket c)))]);
                  mret ()
              | Some _ => mret ()
              end)
             (λ e, console_error ("Error sending message: " +:+ e)))
          (setSending false)
  end.

(** [updateTicketStatus]; the store's answer carries an error or nothing,
    the row count is not looked at.  The [onTicketUpdate] callback makes
    the parent list re-read the tickets and writes nothing. *)
Definition updateTicketStatus (status : string) : js unit :=
  c ← get_ui;
  match userProfile c with
  | None => mret ()
  | Some u =>
      try_catch
        (r ← await (λ uid, pg_update_ticket_status uid (Ticket.id (ticket c)) status);
         match r with
         | inr _ =>
             setTicketData (Ticket.with_status status);;
             _ ← await (λ uid, pg_insert_activity_log uid (User.id u)
                          ("Ticket status changed to " +:+ status)
                          [("ticket_id", JUuid (Ticket.id (ticket c)));
                           ("ticket_title", JString (Ticket.title (ticket c)));
                           ("new_status", JString status)]);
             if bool_decide (status = "closed")
                && bool_decide (User.role u = customer)
             then setShowResolutionOptions true
             else mret ()
         | inl _ => mret ()
         end)
        (λ e, console_error ("Error updating ticket status: " +:+ e))
  end.

Inductive choice := resolved | unresolved.

Definition escalation_reason : string :=
  "Customer requested to reopen ticket as unresolved".

Definition reopen_request_message : string :=
  "Customer has requested to reopen this ticket as unresolved. Waiting for admin approval.".

(** [handleResolutionChoice] *)
Definition handleResolutionChoice (ch : choice) : js unit :=
  match ch with
  | resolved =>
      updateTicketStatus "resolved";;
      setShowResolutionOptions false
  | unresolved =>
      try_catch
        (c ← get_ui;
         u ← non_null (userProfile c);
         error ← await (λ uid, pg_insert_ticket_escalation uid
                          (Ticket.id (ticket c)) (User.id u) "pending"
                          (Some escalation_reason));
         match error with
         | None =>
             updateTicketStatus "unresolved";;
             setShowResolutionOptions false;;
             _ ← await (λ uid, pg_insert_ticket_message uid
                          (Ticket.id (ticket c)) (User.id u) reopen_request_message);
             mret ()
         | Some _ => mret ()
         end)
        (λ e, console_error ("Error creating escalation: " +:+ e))
  end.

(** ** What the rendered component offers *)

Definition isAdmin (c : component) : bool :=
  match userProfile c with
  | Some u => bool_decide (User.role u ∈ [super_admin; supervisory_admin; agent])
  | None => false
  end.

Definition canCloseTicket (c : component) : bool :=
  isAdmin c && bool_decide (Ticket.status (ticketData c) = "open").

Definition canReopenTicket (c : component) : bool :=
  isAdmin c
  && bool_decide (Ticket.status (ticketData c) ∈ ["closed"; "resolved"; "unresolved"]).

(** The form is rendered while the held status is [open]; its field and
    button are disabled while a message is being sent. *)
Definition canSubmitMessage (c : component) : bool :=
  bool_decide (Ticket.status (ticketData c) = "open") && negb (sending c).

(** [handleSubmit(sendMessage)] with
    [register('message', { required: 'Message is required' })]:
    an empty field is flagged and the handler is not called. *)
Definition handleSubmit (handler : string → js unit) (body : string) : js unit :=
  if bool_decide (body = "") then set_form body (Some "Message is required")
  else (set_form body None;; handler body).

Inductive event :=
| ClickCloseTicket
| ClickReopenTicket
| ClickMarkResolved
| ClickMarkUnresolved
| SubmitMessage (body : string).

(** A click or submit reaches its handler only if the control is on screen. *)
Definition dispatch (e : event) : js unit :=
  c ← get_ui;
  match e with
  | ClickCloseTicket =>
      if canCloseTicket c then updateTicketStatus "closed" else mret ()
  | ClickReopenTicket =>
      if canReopenTicket c then updateTicketStatus "open" else mret ()
  | ClickMarkResolved =>
      if showResolutionOptions c then handleResolutionChoice resolved else mret ()
  | ClickMarkUnresolved =>
      if showResolutionOptions c then handleResolutionChoice unresolved else mret ()
  | SubmitMessage body =>
      if canSubmitMessage c then handleSubmit sendMessage body else mret ()
  end.

(** The chat as it is mounted for a signed-in user on a ticket row. *)
Definition open_chat (d : db) (u : User.t) (t : Ticket.t) : world :=
  mk_world d (Some (User.id u))
           (mk_component t (Some u) [] true false t false "" None) [].

(** What can happen next: a control is used, the conversation is
    (re)loaded, time passes on the server, or somebody opens a chat on the
    same store. *)
Inductive step : world → world → Prop :=
| step_event e w : step w (dispatch e w).1
| step_load w : step w (loadMessages w).1
| step_tick dt w : step w (mk_world (tick dt (store w)) (auth_uid w) (ui w) (console w))
| step_open u t w : step w (open_chat (store w) u t).

(** ** Vocabulary of the statements *)

(** The status the store holds for a ticket. *)
Definition stored_status (w : world) (id : nat) : option string :=
  Ticket.status <$> tickets (store w) !! id.

(** The session belongs to [u]: the server resolves [auth.uid()] to [u]'s
    row and [useAuth] handed the same row to the component. *)
Definition signed_in (w : world) (u : User.t) : Prop :=
  auth_uid w = Some (User.id u)
  ∧ users (store w) !! User.id u = Some u
  ∧ userProfile (ui w) = Some u.

(** The columns of a ticket other than [status] and [updated_at]. *)
Definition frame (t : Ticket.t)
    : nat * string * string * nat * option string * option nat * nat :=
  (Ticket.id t, Ticket.title t, Ticket.description t, Ticket.customer_id t,
   Ticket.team_tag t, Ticket.assigned_agent_id t, Ticket.created_at t).





(** ** The handlers' effects in closed form *)

(** What the component holds after a status request the store did not
    refuse: the held status is overwritten and, for a customer asking for
    [closed], the resolution prompt is raised. *)
Definition after_status_change (status : string) (u : User.t) (c : component)
    : component :=
  mk_component (ticket c) (userProfile c) (messages c) (loading c) (sending c)
    (Ticket.with_status status (ticketData c))
    (if bool_decide (status = "closed") && bool_decide (User.role u = customer)
     then true else showResolutionOptions c)
    (draft c) (form_error c).

Definition hide_resolution_options (c : component) : component :=
  mk_component (ticket c) (userProfile c) (messages c) (loading c) (sending c)
    (ticketData c) false (draft c) (form_error c).

Definition status_change_log (status : string) (u : User.t) (c : component)
    (uid : option nat) (d : db) : db :=
  (pg_insert_activity_log uid (User.id u) ("Ticket status changed to " +:+ status)
     [("ticket_id", JUuid (Ticket.id (ticket c)));
      ("ticket_title", JString (Ticket.title (ticket c)));
      ("new_status", JString status)] d).1.

Definition after_send (c : component) : component :=
  mk_component (ticket c) (userProfile c) (messages c) (loading c) false
    (ticketData c) (showResolutionOptions c) "" None.

Definition stop_sending (c : component) : component :=
  mk_component (ticket c) (userProfile c) (messages c) (loading c) false
    (ticketData c) (showResolutionOptions c) (draft c) (form_error c).

Definition stop_loading (c : component) : component :=
  mk_component (ticket c) (userProfile c) (messages c) false (sending c)
    (ticketData c) (showResolutionOptions c) (draft c) (form_error c).

Definition message_log (u : User.t) (c : component) (uid : option nat) (d : db) : db :=
  (pg_insert_activity_log uid (User.id u) "Sent message in ticket"
     [("ticket_id", JUuid (Ticket.id (ticket c)));
      ("ticket_title", JString (Ticket.title (ticket c)))] d).1.

(** ** A small installation used in the examples *)

Module Demo.
Definition ada : User.t :=
  User.mk 10 "ada@acme.test" "Ada" customer (Some 1) None None true.
Definition bob : User.t :=
  User.mk 11 "bob@acme.test" "Bob" customer (Some 1) None None true.
Definition sam : User.t :=
  User.mk 20 "sam@desk.test" "Sam" agent None (Some 1) (Some "k-sam") true.
Definition tess : User.t :=
  User.mk 21 "tess@desk.test" "Tess" agent None (Some 2) (Some "k-tess") true.
Definition root : User.t :=
  User.mk 30 "root@desk.test" "Root" super_admin None None (Some "k-root") true.

Definition login_ticket (status : string) : Ticket.t :=
  Ticket.mk 100 "Cannot log in" "The login page rejects my password"
            10 (Some "support") None status 5 5.

Definition people : gmap nat User.t :=
  list_to_map [(10, ada); (11, bob); (20, sam); (21, tess); (30, root)].

Definition desks : gmap nat Team.t :=
  list_to_map [(1, Team.mk 1 "Support" "support"); (2, Team.mk 2 "Billing" "billing")].

(** One ticket owned by Ada and tagged for the support team, nothing
    said on it yet; the policies are those of the migrations. *)
Definition installation (status : string) : db :=
  mk_db people desks (list_to_map [(100, login_ticket status)])
        [] [] [] 7 1000 initial_migration.

(** The same rows in a store from which the two self-referencing
    policies have been dropped. *)
Definition untangled (status : string) : db :=
  mk_db people desks (list_to_map [(100, login_ticket status)])
        [] [] [] 7 1000 [].


(** The migrated store holding two messages on the ticket, Ada's and,
    a tick of the server clock later, Sam's. *)
Definition conversation : db :=
  mk_db people desks (list_to_map [(100, login_ticket "open")])
        [TicketMessage.mk 1000 100 10 "It still fails" 7;
         TicketMessage.mk 1001 100 20 "Looking into it" 8]
        [] [] 8 1002 initial_migration.
End Demo.

(** ** Signing in ([useAuth], [LoginForm]) *)

(** What [supabase.auth.signInWithPassword] answers. *)
Inductive auth_response :=
| auth_error (message : string)
| auth_no_user
| auth_user (id : nat).

(** The identity provider, as the accounts it knows: an email address
    with its password and the id of the user. *)
Definition signInWithPassword (accounts : gmap string (string * nat))
    (email password : string) : auth_response :=
  match accounts !! email with
  | Some (pw, id) =>
      if bool_decide (pw = password) then auth_user id
      else auth_error "Invalid login credentials"
  | None => auth_error "Invalid login credentials"
  end.

(** The store together with the browser's session. *)
Record site := mk_site {
  site_store : db;
  site_uid : option nat
}.

Definition role_text (r : Role) : string :=
  match r with
  | customer => "customer"
  | super_admin => "super_admin"
  | supervisory_admin => "supervisory_admin"
  | agent => "agent"
  end.

(** [!key] for an optional string: [undefined] and [''] are falsy. *)
Definition no_key (key : option string) : bool :=
  match key with
  | None => true
  | Some k => bool_decide (k = "")
  end.

(** [signIn] of [useAuth]; the result is the [message] of the returned
    error, if any.  The profile is read right after the provider opened
    the session, under that session. *)
Definition signIn (accounts : gmap string (string * nat))
    (email password : string) (key : option string) (s : site)
    : site * option string :=
  match signInWithPassword accounts email password with
  | auth_error m => (s, Some m)
  | auth_no_user => (s, Some "No user returned from signIn")
  | auth_user id =>
      match pg_select_user (Some id) id (site_store s) with
      | inl _ => (mk_site (site_store s) None, Some "Invalid credentials")
      | inr profile =>
          if negb (bool_decide (User.role profile = customer))
             && (no_key key || negb (bool_decide (User.key profile = key)))
          then (mk_site (site_store s) None, Some "Invalid or missing access key")
          else
            (mk_site
               (pg_insert_activity_log (Some id) (User.id profile) "User logged in"
                  [("role", JString (role_text (User.role profile)));
                   ("email", JString (User.email profile))]
                  (site_store s)).1
               (Some id),
             None)
      end
  end.

Module LoginForm.
Record t := mk {
  loading : bool;
  error : string;
  successMessage : string
}.

End LoginForm.

(** ** Routes ([App], [ProtectedRoute]) *)

Inductive route :=
| route_root              (* "/" *)
| route_login             (* "/login" *)
| route_signup            (* "/signup" *)
| route_admin_login       (* "/admin/login" *)
| route_dashboard         (* "/dashboard" *)
| route_admin_dashboard   (* "/admin/dashboard" *)
| route_other.            (* "*" *)

Inductive page :=
| HomePage
| LoginFormPage (isAdmin : bool)
| SignupForm
| CustomerDashboard
| AdminDashboard.

Inductive element :=
| Spinner
| Navigate (to : route)
| Render (p : page).

Module AuthContext.
Record t := mk {
  user : option nat;
  userProfile : option User.t;
  loading : bool
}.
End AuthContext.

(** Where a signed-in role lives. *)
Definition dashboardPath (r : Role) : route :=
  if bool_decide (r = customer) then route_dashboard else route_admin_dashboard.

(** [ProtectedRoute]; its default [redirectTo] is ["/login"]. *)
Definition ProtectedRoute (ctx : AuthContext.t) (requiredRole : option (list Role))
    (redirectTo : route) (children : element) : element :=
  if AuthContext.loading ctx then Spinner
  else
    match AuthContext.user ctx, AuthContext.userProfile ctx with
    | Some _, Some p =>
        match requiredRole with
        | Some roles =>
            if bool_decide (User.role p ∈ roles) then children
            else Navigate (dashboardPath (User.role p))
        | None => children
        end
    | _, _ => Navigate redirectTo
    end.

Definition getDashboardRoute (ctx : AuthContext.t) : route :=
  match AuthContext.userProfile ctx with
  | None => route_login
  | Some p => dashboardPath (User.role p)
  end.

(** [AppRoutes]: the element shown for the route the router matched. *)
Definition AppRoutes (ctx : AuthContext.t) (r : route) : element :=
  if AuthContext.loading ctx then Spinner
  else
    let public (p : page) :=
      if bool_decide (is_Some (AuthContext.user ctx))
      then Navigate (getDashboardRoute ctx) else Render p in
    match r with
    | route_root => public HomePage
    | route_login => public (LoginFormPage false)
    | route_signup => public SignupForm
    | route_admin_login => public (LoginFormPage true)
    | route_dashboard =>
        ProtectedRoute ctx (Some [customer]) route_login (Render CustomerDashboard)
    | route_admin_dashboard =>
        ProtectedRoute ctx (Some [super_admin; supervisory_admin; agent])
          route_login (Render AdminDashboard)
    | route_other => Navigate route_root
    end.

(** Following [Navigate] elements, at most [hops] times. *)
Fixpoint settle (hops : nat) (ctx : AuthContext.t) (r : route) : element :=
  match AppRoutes ctx r, hops with
  | Navigate to, S n => settle n ctx to
  | e, _ => e
  end.

(** ** Search boxes and status filters *)

(** [String.prototype.toLowerCase]: below 256 the letters with a lower
    case of their own are A to Z and U+00C0 to U+00DE without the
    multiplication sign U+00D7, each 32 below its lower case. *)
Definition toLowerCase_char (c : Ascii.ascii) : Ascii.ascii :=
  let n := Ascii.nat_of_ascii c in
  if (bool_decide (65 ≤ n) && bool_decide (n ≤ 90))
     || (bool_decide (192 ≤ n) && bool_decide (n ≤ 222) && negb (bool_decide (n = 215)))
  then Ascii.ascii_of_nat (n + 32) else c.

Fixpoint toLowerCase (s : string) : string :=
  match s with
  | EmptyString => EmptyString
  | String c r => String (toLowerCase_char c) (toLowerCase r)
  end.

Fixpoint startsWith (s p : string) : bool :=
  match p, s with
  | EmptyString, _ => true
  | String _ _, EmptyString => false
  | String a p', String b s' => bool_decide (a = b) && startsWith s' p'
  end.

(** [String.prototype.includes] *)
Fixpoint includes (s sub : string) : bool :=
  startsWith s sub
  || match s with
     | EmptyString => false
     | String _ r => includes r sub
     end.

Definition matches (field searchTerm : string) : bool :=
  includes (toLowerCase field) (toLowerCase searchTerm).

Module TicketWithCustomer.
Record t := mk {
  ticket : Ticket.t;
  customer : option User.t
}.
End TicketWithCustomer.

(** [filteredTickets] of [AdminTicketList]; a ticket whose customer row
    was not joined matches on title and description only. *)
Definition filteredTickets (filter_by searchTerm : string)
    (tickets : list TicketWithCustomer.t) : list TicketWithCustomer.t :=
  filter
    (λ x,
       let t := TicketWithCustomer.ticket x in
       let matchesFilter :=
         bool_decide (filter_by = "all")
         || bool_decide (Ticket.status t = filter_by) in
       let matchesSearch :=
         matches (Ticket.title t) searchTerm
         || matches (Ticket.description t) searchTerm
         || match TicketWithCustomer.customer x with
            | Some c => matches (User.name c) searchTerm
            | None => false
            end
         || match TicketWithCustomer.customer x with
            | Some c => matches (User.email c) searchTerm
            | None => false
            end in
       matchesFilter && matchesSearch = true)
    tickets.

Module UserWithTickets.
Record t := mk {
  user : User.t;
  tickets : list Ticket.t
}.
End UserWithTickets.

(** [filteredUsers] of [UserManagement] *)
Definition filteredUsers (searchTerm : string) (users : list UserWithTickets.t)
    : list UserWithTickets.t :=
  filter
    (λ x,
       matches (User.name (UserWithTickets.user x)) searchTerm
       || matches (User.email (UserWithTickets.user x)) searchTerm = true)
    users.

(** [filteredAdmins] of [UserManagement] *)
Definition filteredAdmins (searchTerm : string) (admins : list User.t) : list User.t :=
  filter
    (λ a, matches (User.name a) searchTerm || matches (User.email a) searchTerm = true)
    admins.

(** ** Accounts and pages used in the examples *)

Module Desk.
Definition accounts : gmap string (string * nat) :=
  list_to_map [("ada@acme.test", ("correct horse", 10));
               ("sam@desk.test", ("battery staple", 20));
               ("ghost@acme.test", ("nobody home", 99))].

Definition front_door : site := mk_site (Demo.installation "open") None.
End Desk.

(** ** Strings *)

Lemma trimStart_blank s : blank s = true → trimStart s = "".
Proof.
  induction s as [|c r IH]; simpl; [done|].
  destruct (is_whitespace c); simpl; [exact IH | discriminate].
Qed.

Lemma trim_blank s : blank s = true → trim s = "".
Proof. intros H. unfold trim. by rewrite trimStart_blank. Qed.

Lemma trimEnd_empty s : trimEnd s = "" → blank s = true.
Proof.
  induction s as [|c r IH]; simpl; [done|].
  destruct (trimEnd r) eqn:E; [|discriminate].
  destruct (is_whitespace c); [auto | discriminate].
Qed.

Lemma blank_trimStart s : blank (trimStart s) = blank s.
Proof.
  induction s as [|c r IH]; simpl; [done|].
  destruct (is_whitespace c) eqn:E; simpl; [exact IH | by rewrite E].
Qed.

(** [!body.trim()] holds exactly for the empty and white-space-only bodies. *)
Lemma trim_empty_iff s : trim s = "" ↔ blank s = true.
Proof.
  split; [|apply trim_blank].
  intros H. rewrite <- blank_trimStart. by apply trimEnd_empty.
Qed.

(** ** Store statements *)

Arguments pg_update_ticket_status : simpl never.
Arguments pg_insert_ticket_message : simpl never.
Arguments pg_insert_activity_log : simpl never.
Arguments pg_insert_ticket_escalation : simpl never.
Arguments pg_select_ticket_messages : simpl never.
Arguments pg_select_user : simpl never.

Ltac js_unfold :=
  unfold mbind, mret, js_bind, js_ret, await, get_ui, set_ui, try_catch,
    try_finally, console_error, throw, non_null, setMessages, setLoading,
    setSending, setTicketData, setShowResolutionOptions, reset, set_form in *.

Lemma world_eta w : mk_world (store w) (auth_uid w) (ui w) (console w) = w.
Proof. by destruct w. Qed.

Lemma pg_update_ticket_status_cases uid id s d :
  (∃ t, tickets d !! id = Some t
        ∧ pg_update_ticket_status uid id s d =
          (set_tickets (<[id := Ticket.with_updated_at (now d) (Ticket.with_status s t)]>
                          (tickets d)) d, inr 1)
        ∧ current_role_in d uid is_staff = true
        ∧ tickets_status_check s = true)
  ∨ (∃ r, pg_update_ticket_status uid id s d = (d, r)).
Proof.
  unfold pg_update_ticket_status.
  destruct (policy_recursion d uid); [right; eauto|].
  destruct (tickets d !! id) as [t|] eqn:Ht; [|right; eauto].
  destruct (policy_tickets_select d uid t && policy_tickets_update d uid t) eqn:Hp;
    [|right; eauto].
  destruct (tickets_status_check s) eqn:Hs; [|right; eauto].
  left. exists t. apply andb_true_iff in Hp as [_ Hp]. auto.
Qed.

Lemma pg_insert_ticket_message_refused uid ticket_id user_id body d e :
  (pg_insert_ticket_message uid ticket_id user_id body d).2 = Some e →
  (pg_insert_ticket_message uid ticket_id user_id body d).1 = d.
Proof.
  unfold pg_insert_ticket_message.
  destruct (policy_recursion d uid); [done|].
  by destruct (policy_messages_insert d uid ticket_id user_id).
Qed.

Lemma pg_insert_ticket_escalation_refused uid ticket_id by_id st reason d e :
  (pg_insert_ticket_escalation uid ticket_id by_id st reason d).2 = Some e →
  (pg_insert_ticket_escalation uid ticket_id by_id st reason d).1 = d.
Proof.
  unfold pg_insert_ticket_escalation.
  destruct (policy_recursion d uid); [done|].
  destruct (policy_escalations_insert d uid by_id); [|done].
  destruct (escalations_status_check st); [|done].
  destruct (tickets d !! ticket_id); [|done].
  by destruct (users d !! by_id).
Qed.

Lemma pg_update_ticket_status_refused uid id s d e :
  (pg_update_ticket_status uid id s d).2 = inl e →
  (pg_update_ticket_status uid id s d).1 = d.
Proof.
  destruct (pg_update_ticket_status_cases uid id s d) as [(t & _ & -> & _)|[r ->]];
    [discriminate | done].
Qed.

(** One request answered: split on what the store said. *)
Ltac answer :=
  match goal with
  | |- context [pg_update_ticket_status ?a ?b ?c ?d] =>
      destruct (pg_update_ticket_status a b c d) as [? [?|?]] eqn:?
  | |- context [pg_insert_ticket_message ?a ?b ?c ?d ?e] =>
      destruct (pg_insert_ticket_message a b c d e) as [? [?|]] eqn:?
  | |- context [pg_insert_activity_log ?a ?b ?c ?d ?e] =>
      destruct (pg_insert_activity_log a b c d e) as [? [?|]] eqn:?
  | |- context [pg_insert_ticket_escalation ?a ?b ?c ?d ?e ?f] =>
      destruct (pg_insert_ticket_escalation a b c d e f) as [? [?|]] eqn:?
  end; simpl.

Ltac js_run := js_unfold; simpl; repeat answer.

(** ** The handlers in closed form *)

Lemma updateTicketStatus_signed_out s w :
  userProfile (ui w) = None → updateTicketStatus s w = (w, Returned ()).
Proof. intros H. unfold updateTicketStatus. js_unfold. simpl. by rewrite H. Qed.

Lemma updateTicketStatus_run s w u :
  userProfile (ui w) = Some u →
  updateTicketStatus s w =
    match pg_update_ticket_status (auth_uid w) (Ticket.id (ticket (ui w))) s (store w) with
    | (d, inl _) => (mk_world d (auth_uid w) (ui w) (console w), Returned ())
    | (d, inr _) =>
        (mk_world (status_change_log s u (ui w) (auth_uid w) d) (auth_uid w)
                  (after_status_change s u (ui w)) (console w),
         Returned ())
    end.
Proof.
  intros H. unfold updateTicketStatus, status_change_log, after_status_change.
  js_unfold. simpl. rewrite H. js_run; [done|..];
    destruct (bool_decide (s = "closed") && bool_decide (User.role u = customer));
    simpl; by rewrite ?H.
Qed.

Lemma updateTicketStatus_userProfile s w :
  userProfile (ui (updateTicketStatus s w).1) = userProfile (ui w).
Proof.
  destruct (userProfile (ui w)) as [u|] eqn:H.
  - rewrite (updateTicketStatus_run s w u H).
    by destruct (pg_update_ticket_status _ _ _ _) as [d [e|n]].
  - by rewrite updateTicketStatus_signed_out.
Qed.

Lemma updateTicketStatus_ticket s w :
  ticket (ui (updateTicketStatus s w).1) = ticket (ui w).
Proof.
  destruct (userProfile (ui w)) as [u|] eqn:H.
  - rewrite (updateTicketStatus_run s w u H).
    by destruct (pg_update_ticket_status _ _ _ _) as [d [e|n]].
  - by rewrite updateTicketStatus_signed_out.
Qed.

Lemma updateTicketStatus_auth_uid s w :
  auth_uid (updateTicketStatus s w).1 = auth_uid w.
Proof.
  destruct (userProfile (ui w)) as [u|] eqn:H.
  - rewrite (updateTicketStatus_run s w u H).
    by destruct (pg_update_ticket_status _ _ _ _) as [d [e|n]].
  - by rewrite updateTicketStatus_signed_out.
Qed.

Lemma updateTicketStatus_returns s w : (updateTicketStatus s w).2 = Returned ().
Proof.
  destruct (userProfile (ui w)) as [u|] eqn:H.
  - rewrite (updateTicketStatus_run s w u H).
    by destruct (pg_update_ticket_status _ _ _ _) as [d [e|n]].
  - by rewrite updateTicketStatus_signed_out.
Qed.

Lemma sendMessage_run body w u :
  userProfile (ui w) = Some u →
  sendMessage body w =
    if bool_decide (trim body = "") then (w, Returned ())
    else
      match pg_insert_ticket_message (auth_uid w) (Ticket.id (ticket (ui w)))
              (User.id u) (trim body) (store w) with
      | (d, Some _) =>
          (mk_world d (auth_uid w) (stop_sending (ui w)) (console w), Returned ())
      | (d, None) =>
          (mk_world (message_log u (ui w) (auth_uid w) d) (auth_uid w)
                    (after_send (ui w)) (console w),
           Returned ())
      end.
Proof.
  intros H. unfold sendMessage, message_log, after_send, stop_sending.
  js_unfold. simpl. rewrite H. case_bool_decide; [done|].
  js_run; by rewrite ?H.
Qed.

Lemma sendMessage_signed_out body w :
  userProfile (ui w) = None → sendMessage body w = (w, Returned ()).
Proof. intros H. unfold sendMessage. js_unfold. simpl. by rewrite H. Qed.

Lemma sendMessage_returns body w : (sendMessage body w).2 = Returned ().
Proof.
  destruct (userProfile (ui w)) as [u|] eqn:H.
  - rewrite (sendMessage_run body w u H). case_bool_decide; [done|].
    by destruct (pg_insert_ticket_message _ _ _ _ _) as [d [e|]].
  - by rewrite sendMessage_signed_out.
Qed.

Lemma handleResolutionChoice_resolved_run w :
  handleResolutionChoice resolved w =
    let w' := (updateTicketStatus "resolved" w).1 in
    (mk_world (store w') (auth_uid w') (hide_resolution_options (ui w')) (console w'),
     Returned ()).
Proof.
  unfold handleResolutionChoice, mbind, js_bind.
  pose proof (updateTicketStatus_returns "resolved" w) as H.
  destruct (updateTicketStatus "resolved" w) as [w' r]. simpl in *. by subst r.
Qed.

Lemma handleResolutionChoice_unresolved_signed_out w :
  userProfile (ui w) = None →
  handleResolutionChoice unresolved w =
    (mk_world (store w) (auth_uid w) (ui w)
       (console w ++ ["Error creating escalation: "
                      +:+ "TypeError: Cannot read properties of null"]),
     Returned ()).
Proof. intros H. unfold handleResolutionChoice. js_unfold. simpl. by rewrite H. Qed.

Lemma handleResolutionChoice_unresolved_run w u :
  userProfile (ui w) = Some u →
  handleResolutionChoice unresolved w =
    match pg_insert_ticket_escalation (auth_uid w) (Ticket.id (ticket (ui w)))
            (User.id u) "pending" (Some escalation_reason) (store w) with
    | (d, Some _) => (mk_world d (auth_uid w) (ui w) (console w), Returned ())
    | (d, None) =>
        let w' := (updateTicketStatus "unresolved"
                     (mk_world d (auth_uid w) (ui w) (console w))).1 in
        (mk_world (pg_insert_ticket_message (auth_uid w') (Ticket.id (ticket (ui w)))
                     (User.id u) reopen_request_message (store w')).1
                  (auth_uid w') (hide_resolution_options (ui w')) (console w'),
         Returned ())
    end.
Proof.
  intros H. unfold handleResolutionChoice, try_catch, mbind, js_bind, get_ui.
  rewrite H. simpl. unfold await at 1.
  destruct (pg_insert_ticket_escalation _ _ _ _ _ _) as [d [e|]]; simpl; [done|].
  match goal with |- context [updateTicketStatus ?s ?x] =>
    pose proof (updateTicketStatus_returns s x) as Hr;
    destruct (updateTicketStatus s x) as [w' r] end.
  simpl in *. subst r. js_unfold. simpl.
  by destruct (pg_insert_ticket_message _ _ _ _ _) as [d' r].
Qed.

Lemma handleResolutionChoice_returns ch w :
  (handleResolutionChoice ch w).2 = Returned ().
Proof.
  destruct ch.
  - by rewrite handleResolutionChoice_resolved_run.
  - destruct (userProfile (ui w)) as [u|] eqn:H.
    + rewrite (handleResolutionChoice_unresolved_run w u H).
      by destruct (pg_insert_ticket_escalation _ _ _ _ _ _) as [d [e|]].
    + by rewrite handleResolutionChoice_unresolved_signed_out.
Qed.

(** ** What each statement leaves alone *)

Lemma pg_insert_activity_log_keeps uid user_id action details d :
  let d' := (pg_insert_activity_log uid user_id action details d).1 in
  users d' = users d ∧ tickets d' = tickets d
  ∧ ticket_messages d' = ticket_messages d
  ∧ ticket_escalations d' = ticket_escalations d ∧ now d' = now d.
Proof.
  unfold pg_insert_activity_log.
  destruct (policy_activity_logs_insert uid user_id); [|done].
  by destruct (users d !! user_id).
Qed.


Lemma pg_insert_ticket_escalation_keeps uid ticket_id by_id st reason d :
  let d' := (pg_insert_ticket_escalation uid ticket_id by_id st reason d).1 in
  users d' = users d ∧ tickets d' = tickets d
  ∧ ticket_messages d' = ticket_messages d ∧ now d' = now d.
Proof.
  unfold pg_insert_ticket_escalation.
  destruct (policy_recursion d uid); [done|].
  destruct (policy_escalations_insert d uid by_id); [|done].
  destruct (escalations_status_check st); [|done].
  destruct (tickets d !! ticket_id); [|done].
  by destruct (users d !! by_id).
Qed.

Lemma pg_update_ticket_status_keeps uid id s d :
  let d' := (pg_update_ticket_status uid id s d).1 in
  users d' = users d ∧ ticket_messages d' = ticket_messages d
  ∧ ticket_escalations d' = ticket_escalations d
  ∧ activity_logs d' = activity_logs d ∧ now d' = now d.
Proof.
  destruct (pg_update_ticket_status_cases uid id s d) as [(t & _ & -> & _)|[r ->]];
    done.
Qed.

Lemma frame_status_change n s t :
  frame (Ticket.with_updated_at n (Ticket.with_status s t)) = frame t.
Proof. done. Qed.

Lemma pg_update_ticket_status_frame uid id s d :
  frame <$> tickets (pg_update_ticket_status uid id s d).1 = frame <$> tickets d.
Proof.
  destruct (pg_update_ticket_status_cases uid id s d) as [(t & Ht & -> & _)|[r ->]];
    [|done].
  simpl. rewrite fmap_insert, frame_status_change.
  apply insert_id. by rewrite lookup_fmap, Ht.
Qed.

(** The store after [updateTicketStatus]: at most the one ticket row is
    rewritten, and only for a staff session asking for an allowed status. *)
Lemma updateTicketStatus_tickets s w :
  tickets (store (updateTicketStatus s w).1) = tickets (store w)
  ∨ ∃ t, tickets (store w) !! Ticket.id (ticket (ui w)) = Some t
         ∧ tickets (store (updateTicketStatus s w).1)
           = <[Ticket.id (ticket (ui w)) :=
                 Ticket.with_updated_at (now (store w)) (Ticket.with_status s t)]>
               (tickets (store w))
         ∧ current_role_in (store w) (auth_uid w) is_staff = true
         ∧ tickets_status_check s = true.
Proof.
  destruct (userProfile (ui w)) as [u|] eqn:H;
    [|left; by rewrite updateTicketStatus_signed_out].
  rewrite (updateTicketStatus_run s w u H).
  destruct (pg_update_ticket_status_cases (auth_uid w) (Ticket.id (ticket (ui w)))
              s (store w)) as [(t & Ht & -> & Hr & Hs)|[r ->]].
  - right. exists t. simpl. unfold status_change_log.
    by rewrite (proj1 (proj2 (pg_insert_activity_log_keeps _ _ _ _ _))).
  - left. destruct r; simpl; [done|]. unfold status_change_log.
    by rewrite (proj1 (proj2 (pg_insert_activity_log_keeps _ _ _ _ _))).
Qed.

Lemma updateTicketStatus_keeps s w :
  let d' := store (updateTicketStatus s w).1 in
  users d' = users (store w)
  ∧ ticket_messages d' = ticket_messages (store w)
  ∧ ticket_escalations d' = ticket_escalations (store w)
  ∧ now d' = now (store w).
Proof.
  destruct (userProfile (ui w)) as [u|] eqn:H;
    [|by rewrite updateTicketStatus_signed_out].
  rewrite (updateTicketStatus_run s w u H).
  pose proof (pg_update_ticket_status_keeps (auth_uid w)
                (Ticket.id (ticket (ui w))) s (store w)) as K.
  destruct (pg_update_ticket_status _ _ _ _) as [d [e|n]]; simpl in *;
    destruct K as (K1 & K2 & K3 & _ & K5); [done|].
  unfold status_change_log.
  match goal with |- context [pg_insert_activity_log ?a ?b ?c ?e ?f] =>
    destruct (pg_insert_activity_log_keeps a b c e f) as (L1 & _ & L3 & L4 & L5) end.
  repeat split; congruence.
Qed.


(** ** The self-referencing policies *)

Lemma as_migrated_recursion d i : as_migrated d → policy_recursion d (Some i) = true.
Proof. unfold as_migrated, policy_recursion. by intros ->. Qed.

(** A signed-in session while a self-referencing policy is in force:
    every statement whose policies look at [users] is answered with
    42P17 and writes nothing. *)
Lemma pg_update_ticket_status_recursion uid id s d :
  policy_recursion d uid = true →
  pg_update_ticket_status uid id s d = (d, inl (infinite_recursion "users")).
Proof. intros H. unfold pg_update_ticket_status. by rewrite H. Qed.

Lemma pg_insert_ticket_message_recursion uid ticket_id user_id body d :
  policy_recursion d uid = true →
  pg_insert_ticket_message uid ticket_id user_id body d
  = (d, Some (infinite_recursion "users")).
Proof. intros H. unfold pg_insert_ticket_message. by rewrite H. Qed.

Lemma pg_insert_ticket_escalation_recursion uid ticket_id by_id st reason d :
  policy_recursion d uid = true →
  pg_insert_ticket_escalation uid ticket_id by_id st reason d
  = (d, Some (infinite_recursion "users")).
Proof. intros H. unfold pg_insert_ticket_escalation. by rewrite H. Qed.


Lemma pg_select_user_recursion uid id d :
  policy_recursion d uid = true →
  pg_select_user uid id d = inl (infinite_recursion "users").
Proof. intros H. unfold pg_select_user. by rewrite H. Qed.

(** A session that is not signed in: no policy is granted to it. *)
Lemma pg_update_ticket_status_anon id s d :
  pg_update_ticket_status None id s d = (d, inr 0).
Proof. unfold pg_update_ticket_status. simpl. by destruct (tickets d !! id). Qed.

Lemma pg_insert_ticket_message_anon ticket_id user_id body d :
  pg_insert_ticket_message None ticket_id user_id body d
  = (d, Some (rls_violation "ticket_messages")).
Proof. done. Qed.

Lemma pg_insert_ticket_escalation_anon ticket_id by_id st reason d :
  pg_insert_ticket_escalation None ticket_id by_id st reason d
  = (d, Some (rls_violation "ticket_escalations")).
Proof. done. Qed.

Lemma pg_insert_activity_log_anon user_id action details d :
  pg_insert_activity_log None user_id action details d
  = (d, Some (rls_violation "activity_logs")).
Proof. done. Qed.

(** With the policies as migrated, a statement on [tickets],
    [ticket_messages] or [ticket_escalations] writes nothing, whoever
    sends it, and the two inserts are answered with an error. *)
Lemma pg_update_ticket_status_migrated uid id s d :
  as_migrated d →
  (pg_update_ticket_status uid id s d).1 = d
  ∧ ∀ n, (pg_update_ticket_status uid id s d).2 = inr n → uid = None.
Proof.
  intros H. destruct uid as [i|].
  - by rewrite pg_update_ticket_status_recursion by by apply as_migrated_recursion.
  - by rewrite pg_update_ticket_status_anon.
Qed.

Lemma pg_insert_ticket_message_migrated uid ticket_id user_id body d :
  as_migrated d →
  ∃ e, pg_insert_ticket_message uid ticket_id user_id body d = (d, Some e).
Proof.
  intros H. destruct uid as [i|].
  - rewrite pg_insert_ticket_message_recursion by by apply as_migrated_recursion.
    eauto.
  - rewrite pg_insert_ticket_message_anon. eauto.
Qed.

Lemma pg_insert_ticket_escalation_migrated uid ticket_id by_id st reason d :
  as_migrated d →
  ∃ e, pg_insert_ticket_escalation uid ticket_id by_id st reason d = (d, Some e).
Proof.
  intros H. destruct uid as [i|].
  - rewrite pg_insert_ticket_escalation_recursion by by apply as_migrated_recursion.
    eauto.
  - rewrite pg_insert_ticket_escalation_anon. eauto.
Qed.

(** The handlers of a signed-in session under such a policy. *)
Lemma updateTicketStatus_recursion s w :
  policy_recursion (store w) (auth_uid w) = true →
  updateTicketStatus s w = (w, Returned ()).
Proof.
  intros H. destruct (userProfile (ui w)) as [u|] eqn:Hp;
    [|by apply updateTicketStatus_signed_out].
  rewrite (updateTicketStatus_run s w u Hp), pg_update_ticket_status_recursion by done.
  by rewrite world_eta.
Qed.


Lemma handleResolutionChoice_resolved_recursion w :
  policy_recursion (store w) (auth_uid w) = true →
  handleResolutionChoice resolved w
  = (mk_world (store w) (auth_uid w) (hide_resolution_options (ui w)) (console w),
     Returned ()).
Proof.
  intros H. rewrite handleResolutionChoice_resolved_run.
  by rewrite updateTicketStatus_recursion.
Qed.

Lemma handleResolutionChoice_unresolved_recursion w u :
  userProfile (ui w) = Some u →
  policy_recursion (store w) (auth_uid w) = true →
  handleResolutionChoice unresolved w = (w, Returned ()).
Proof.
  intros Hp H. rewrite (handleResolutionChoice_unresolved_run w u Hp).
  rewrite pg_insert_ticket_escalation_recursion by done. by rewrite world_eta.
Qed.

(** With the policies as migrated no handler changes the store, whatever
    the session. *)
Lemma updateTicketStatus_migrated s w :
  as_migrated (store w) → store (updateTicketStatus s w).1 = store w.
Proof.
  intros H. destruct (auth_uid w) as [i|] eqn:Ha.
  - rewrite updateTicketStatus_recursion; [done|].
    rewrite Ha. by apply as_migrated_recursion.
  - destruct (userProfile (ui w)) as [u|] eqn:Hp;
      [|by rewrite updateTicketStatus_signed_out].
    rewrite (updateTicketStatus_run s w u Hp), Ha, pg_update_ticket_status_anon.
    simpl. unfold status_change_log. by rewrite pg_insert_activity_log_anon.
Qed.

Lemma sendMessage_migrated body w :
  as_migrated (store w) → store (sendMessage body w).1 = store w.
Proof.
  intros H. destruct (userProfile (ui w)) as [u|] eqn:Hp;
    [|by rewrite sendMessage_signed_out].
  rewrite (sendMessage_run body w u Hp). case_bool_decide; [done|].
  by destruct (pg_insert_ticket_message_migrated (auth_uid w)
                 (Ticket.id (ticket (ui w))) (User.id u) (trim body) (store w) H)
    as [e ->].
Qed.

Lemma handleResolutionChoice_migrated ch w :
  as_migrated (store w) → store (handleResolutionChoice ch w).1 = store w.
Proof.
  intros H. destruct ch.
  - rewrite handleResolutionChoice_resolved_run. simpl.
    by apply updateTicketStatus_migrated.
  - destruct (userProfile (ui w)) as [u|] eqn:Hp;
      [|by rewrite handleResolutionChoice_unresolved_signed_out].
    rewrite (handleResolutionChoice_unresolved_run w u Hp).
    by destruct (pg_insert_ticket_escalation_migrated (auth_uid w)
                   (Ticket.id (ticket (ui w))) (User.id u) "pending"
                   (Some escalation_reason) (store w) H) as [e ->].
Qed.

Arguments handleResolutionChoice : simpl never.
Arguments updateTicketStatus : simpl never.
Arguments sendMessage : simpl never.

Lemma dispatch_migrated e w :
  as_migrated (store w) → store (dispatch e w).1 = store w.
Proof.
  intros H. unfold dispatch, mbind, js_bind, get_ui. simpl. destruct e.
  - destruct (canCloseTicket (ui w)); [by apply updateTicketStatus_migrated | done].
  - destruct (canReopenTicket (ui w)); [by apply updateTicketStatus_migrated | done].
  - destruct (showResolutionOptions (ui w));
      [by apply handleResolutionChoice_migrated | done].
  - destruct (showResolutionOptions (ui w));
      [by apply handleResolutionChoice_migrated | done].
  - destruct (canSubmitMessage (ui w)); [|done].
    unfold handleSubmit. case_bool_decide; [done|].
    unfold mbind, js_bind, set_form, set_ui. simpl.
    by rewrite sendMessage_migrated.
Qed.

(** ** Status requests *)

(** C10. A [setStatus] call, whether the store applies it or not, leaves
    every column of every ticket other than [status] and [updated_at] as
    it was: [id], [title], [description], [customer_id], [team_tag],
    [assigned_agent_id] and [created_at]; the same holds for the copy of
    the ticket the component keeps. *)
Theorem setStatus_frame (s : string) (w : world) :
  frame <$> tickets (store (updateTicketStatus s w).1) = frame <$> tickets (store w)
  ∧ frame (ticketData (ui (updateTicketStatus s w).1)) = frame (ticketData (ui w))
  ∧ ticket (ui (updateTicketStatus s w).1) = ticket (ui w).
Proof.
  split; [|split; [|apply updateTicketStatus_ticket]].
  - destruct (updateTicketStatus_tickets s w) as [->|(t & Ht & -> & _)]; [done|].
    rewrite fmap_insert, frame_status_change.
    apply insert_id. by rewrite lookup_fmap, Ht.
  - destruct (userProfile (ui w)) as [u|] eqn:H;
      [|by rewrite updateTicketStatus_signed_out].
    rewrite (updateTicketStatus_run s w u H).
    by destruct (pg_update_ticket_status _ _ _ _) as [d [e|n]].
Qed.





(** ** Sessions and policies *)

Lemma signed_in_current_user w u :
  signed_in w u → current_user (store w) (auth_uid w) = Some u.
Proof. intros (Hu & Hr & _). unfold current_user. by rewrite Hu. Qed.

Lemma signed_in_role w u p :
  signed_in w u → current_role_in (store w) (auth_uid w) p = p (User.role u).
Proof.
  intros H. unfold current_role_in. by rewrite (signed_in_current_user w u H).
Qed.



Lemma pg_insert_ticket_message_cases uid ticket_id user_id body d :
  (pg_insert_ticket_message uid ticket_id user_id body d
   = (commit_ticket_message
        (TicketMessage.mk (next_uuid d) ticket_id user_id body (now d)) d, None)
   ∧ policy_recursion d uid = false
   ∧ policy_messages_insert d uid ticket_id user_id = true)
  ∨ ∃ e, pg_insert_ticket_message uid ticket_id user_id body d = (d, Some e).
Proof.
  unfold pg_insert_ticket_message.
  destruct (policy_recursion d uid); [right; eauto|].
  destruct (policy_messages_insert d uid ticket_id user_id); [left | right]; eauto.
Qed.



(** A staff session asking for an allowed status on a stored ticket,
    where the policies can be expanded. *)
Lemma setStatus_staff s w u t :
  signed_in w u → is_staff (User.role u) = true →
  policy_recursion (store w) (auth_uid w) = false →
  tickets (store w) !! Ticket.id (ticket (ui w)) = Some t →
  tickets_status_check s = true →
  tickets (store (updateTicketStatus s w).1)
  = <[Ticket.id (ticket (ui w)) :=
        Ticket.with_updated_at (now (store w)) (Ticket.with_status s t)]>
      (tickets (store w)).
Proof.
  intros H Hs Hn Ht Hc. pose proof H as (Hu & Hr & Hp).
  rewrite (updateTicketStatus_run s w u Hp).
  unfold pg_update_ticket_status, policy_tickets_select, policy_tickets_update.
  rewrite Hn, Ht, Hu. rewrite <- Hu, (signed_in_role w u _ H), Hs, Hc.
  rewrite orb_true_r. simpl. unfold status_change_log.
  match goal with |- context [pg_insert_activity_log ?a ?b ?c ?e ?f] =>
    destruct (pg_insert_activity_log_keeps a b c e f) as (_ & L & _) end.
  by rewrite L.
Qed.




(** ** The resolution handshake *)









(** ** Posting messages *)


(** C4, counterexample. A body of three spaces: the handler ends normally
    with everything as before, and the form shows no error either. *)
Lemma blank_message_no_validation_error :
  let w := open_chat (Demo.installation "open") Demo.ada (Demo.login_ticket "open") in
  blank "   " = true
  ∧ sendMessage "   " w = (w, Returned ())
  ∧ form_error (ui (dispatch (SubmitMessage "   ") w).1) = None.
Proof. vm_compute. done. Qed.

(** C4. For an empty or white-space-only body [sendMessage] does nothing:
    no request is sent, no message is appended, nothing in the component
    changes, and the handler ends normally without an error. *)
Theorem blank_message_dropped (body : string) (w : world) :
  blank body = true → sendMessage body w = (w, Returned ()).
Proof.
  intros Hb. destruct (userProfile (ui w)) as [u|] eqn:Hp.
  - rewrite (sendMessage_run body w u Hp).
    by rewrite bool_decide_eq_true_2 by by apply trim_blank.
  - by apply sendMessage_signed_out.
Qed.

Lemma blank_message_dropped_witness :
  let w := open_chat (Demo.installation "open") Demo.ada (Demo.login_ticket "open") in
  sendMessage "   " w = (w, Returned ()).
Proof. apply blank_message_dropped. reflexivity. Defined.

(** The form flags the empty body only. *)
Lemma empty_message_flagged w :
  canSubmitMessage (ui w) = true →
  form_error (ui (dispatch (SubmitMessage "") w).1) = Some "Message is required"
  ∧ store (dispatch (SubmitMessage "") w).1 = store w.
Proof.
  intros H. unfold dispatch, handleSubmit. js_unfold. simpl. by rewrite H.
Qed.







(** ** Reading the conversation *)

Lemma loadMessages_run w :
  loadMessages w
  = match pg_select_ticket_messages (auth_uid w) (Ticket.id (ticket (ui w))) (store w) with
    | inr data =>
        (mk_world (store w) (auth_uid w)
           (mk_component (ticket (ui w)) (userProfile (ui w)) data false
              (sending (ui w)) (ticketData (ui w)) (showResolutionOptions (ui w))
              (draft (ui w)) (form_error (ui w)))
           (console w),
         Returned ())
    | inl _ =>
        (mk_world (store w) (auth_uid w) (stop_loading (ui w)) (console w), Returned ())
    end.
Proof.
  unfold loadMessages. js_unfold. simpl.
  by destruct (pg_select_ticket_messages _ _ _).
Qed.

Lemma loadMessages_store w : store (loadMessages w).1 = store w.
Proof. rewrite loadMessages_run. by destruct (pg_select_ticket_messages _ _ _). Qed.







(** ** Failures of the store *)

(** C9, counterexample. Ada's session has expired on the server while her
    chat is still open: the store refuses her message, and [sendMessage]
    ends normally with the component, the console and the store exactly
    as before.  The same happens to the escalation row of her
    "unresolved" choice in a live session, and to Sam's request to close
    the ticket. *)
Lemma refused_insert_not_reported :
  let live := open_chat (Demo.installation "open") Demo.ada (Demo.login_ticket "open") in
  let expired := mk_world (store live) None (ui live) (console live) in
  let desk := open_chat (Demo.installation "open") Demo.sam (Demo.login_ticket "open") in
  (pg_insert_ticket_message (auth_uid expired) 100 10 "hello" (store expired)).2
  = Some (rls_violation "ticket_messages")
  ∧ sendMessage "hello" expired = (expired, Returned ())
  ∧ (pg_insert_ticket_escalation (auth_uid live) 100 10 "pending"
       (Some escalation_reason) (store live)).2
    = Some (infinite_recursion "users")
  ∧ handleResolutionChoice unresolved live = (live, Returned ())
  ∧ (pg_update_ticket_status (auth_uid desk) 100 "closed" (store desk)).2
    = inl (infinite_recursion "users")
  ∧ dispatch ClickCloseTicket desk = (desk, Returned ()).
Proof. vm_compute. done. Qed.

(** C9. None of the four operations hands a result to its caller: each
    ends normally in every case.  When the store answers the operation's
    first request with an error, the operation stops there and the error
    is dropped: the store and the console are as they were before the
    call.  The chat is as it was too, except for what the operation does
    whatever the answer: [sendMessage] turns [sending] off,
    [loadMessages] turns [loading] off, and the "resolved" choice hides
    the prompt. *)
Theorem store_failures_swallowed (w : world) (u : User.t) :
  userProfile (ui w) = Some u →
  ((∀ body, (sendMessage body w).2 = Returned ())
   ∧ (∀ s, (updateTicketStatus s w).2 = Returned ())
   ∧ (∀ ch, (handleResolutionChoice ch w).2 = Returned ())
   ∧ (loadMessages w).2 = Returned ())
  ∧ (∀ body e,
       blank body = false →
       (pg_insert_ticket_message (auth_uid w) (Ticket.id (ticket (ui w)))
          (User.id u) (trim body) (store w)).2 = Some e →
       sendMessage body w
       = (mk_world (store w) (auth_uid w) (stop_sending (ui w)) (console w),
          Returned ()))
  ∧ (∀ s e,
       (pg_update_ticket_status (auth_uid w) (Ticket.id (ticket (ui w))) s
          (store w)).2 = inl e →
       updateTicketStatus s w = (w, Returned ()))
  ∧ (∀ e,
       (pg_update_ticket_status (auth_uid w) (Ticket.id (ticket (ui w))) "resolved"
          (store w)).2 = inl e →
       handleResolutionChoice resolved w
       = (mk_world (store w) (auth_uid w) (hide_resolution_options (ui w)) (console w),
          Returned ()))
  ∧ (∀ e,
       (pg_insert_ticket_escalation (auth_uid w) (Ticket.id (ticket (ui w)))
          (User.id u) "pending" (Some escalation_reason) (store w)).2 = Some e →
       handleResolutionChoice unresolved w = (w, Returned ()))
  ∧ (∀ e,
       pg_select_ticket_messages (auth_uid w) (Ticket.id (ticket (ui w))) (store w)
       = inl e →
       loadMessages w
       = (mk_world (store w) (auth_uid w) (stop_loading (ui w)) (console w),
          Returned ())).
Proof.
  intros Hp.
  assert (∀ s e,
       (pg_update_ticket_status (auth_uid w) (Ticket.id (ticket (ui w))) s
          (store w)).2 = inl e →
       updateTicketStatus s w = (w, Returned ())) as Hup.
  { intros s e He. rewrite (updateTicketStatus_run s w u Hp).
    pose proof (pg_update_ticket_status_refused _ _ _ _ _ He) as Hd.
    destruct (pg_update_ticket_status _ _ _ _) as [d r]. simpl in *. subst.
    by rewrite world_eta. }
  split; [|split; [|split; [exact Hup|split; [|split]]]].
  - repeat split; intros.
    + apply sendMessage_returns.
    + apply updateTicketStatus_returns.
    + apply handleResolutionChoice_returns.
    + rewrite loadMessages_run. by destruct (pg_select_ticket_messages _ _ _).
  - intros body e Hb He. rewrite (sendMessage_run body w u Hp).
    rewrite bool_decide_eq_false_2 by (rewrite trim_empty_iff; congruence).
    pose proof (pg_insert_ticket_message_refused _ _ _ _ _ _ He) as Hd.
    destruct (pg_insert_ticket_message _ _ _ _ _) as [d r]. simpl in *. by subst.
  - intros e He. rewrite handleResolutionChoice_resolved_run.
    by rewrite (Hup "resolved" e He).
  - intros e He. rewrite (handleResolutionChoice_unresolved_run w u Hp).
    pose proof (pg_insert_ticket_escalation_refused _ _ _ _ _ _ _ He) as Hd.
    destruct (pg_insert_ticket_escalation _ _ _ _ _ _) as [d r]. simpl in *. subst.
    by rewrite world_eta.
  - intros e He. by rewrite loadMessages_run, He.
Qed.

Lemma store_failures_swallowed_witness :
  let live := open_chat (Demo.installation "closed") Demo.ada (Demo.login_ticket "closed") in
  let desk := open_chat (Demo.installation "open") Demo.sam (Demo.login_ticket "open") in
  updateTicketStatus "closed" desk = (desk, Returned ())
  ∧ handleResolutionChoice resolved live
    = (mk_world (store live) (auth_uid live) (hide_resolution_options (ui live))
         (console live), Returned ())
  ∧ handleResolutionChoice unresolved live = (live, Returned ()).
Proof.
  split; [|split].
  - apply (proj1 (proj2 (proj2
             (store_failures_swallowed
                (open_chat (Demo.installation "open") Demo.sam (Demo.login_ticket "open"))
                Demo.sam eq_refl)))
             "closed" (infinite_recursion "users")); reflexivity.
  - apply (proj1 (proj2 (proj2 (proj2
             (store_failures_swallowed
                (open_chat (Demo.installation "closed") Demo.ada
                   (Demo.login_ticket "closed"))
                Demo.ada eq_refl))))
             (infinite_recursion "users")); reflexivity.
  - apply (proj1 (proj2 (proj2 (proj2 (proj2
             (store_failures_swallowed
                (open_chat (Demo.installation "closed") Demo.ada
                   (Demo.login_ticket "closed"))
                Demo.ada eq_refl)))))
             (infinite_recursion "users")); reflexivity.
Defined.

(** ** The buttons *)

(** The close button reaches the store only from a chat that holds the
    ticket as [open] and belongs to a staff member; the reopen button only
    from one that holds it as [closed], [resolved] or [unresolved]. *)
Lemma close_button_only_from_open w :
  canCloseTicket (ui w) = false → dispatch ClickCloseTicket w = (w, Returned ()).
Proof. intros H. unfold dispatch, mbind, js_bind, get_ui. simpl. by rewrite H. Qed.

Lemma reopen_button_only_after_close w :
  canReopenTicket (ui w) = false → dispatch ClickReopenTicket w = (w, Returned ()).
Proof. intros H. unfold dispatch, mbind, js_bind, get_ui. simpl. by rewrite H. Qed.

(** * Further properties of the chat *)

(** ** More on what the statements and handlers keep *)

(** [sendMessage] in terms of the store alone. *)
Lemma sendMessage_store body w u :
  userProfile (ui w) = Some u →
  (store (sendMessage body w).1 = store w
   ∧ ui (sendMessage body w).1 = ui w)
  ∨ (store (sendMessage body w).1 = store w
     ∧ ui (sendMessage body w).1 = stop_sending (ui w))
  ∨ (blank body = false
     ∧ policy_messages_insert (store w) (auth_uid w) (Ticket.id (ticket (ui w)))
         (User.id u) = true
     ∧ store (sendMessage body w).1
       = message_log u (ui w) (auth_uid w)
           (commit_ticket_message
              (TicketMessage.mk (next_uuid (store w)) (Ticket.id (ticket (ui w)))
                 (User.id u) (trim body) (now (store w))) (store w))
     ∧ ui (sendMessage body w).1 = after_send (ui w)).
Proof.
  intros Hp. rewrite (sendMessage_run body w u Hp).
  case_bool_decide as Hb; [by left|].
  destruct (pg_insert_ticket_message_cases (auth_uid w) (Ticket.id (ticket (ui w)))
              (User.id u) (trim body) (store w)) as [(-> & _ & Hpol)|[e ->]].
  - right. right. split; [|done].
    destruct (blank body) eqn:E; [|done]. by apply trim_blank in E.
  - right. by left.
Qed.

Lemma message_log_keeps u c uid d :
  users (message_log u c uid d) = users d
  ∧ tickets (message_log u c uid d) = tickets d
  ∧ ticket_messages (message_log u c uid d) = ticket_messages d
  ∧ ticket_escalations (message_log u c uid d) = ticket_escalations d
  ∧ now (message_log u c uid d) = now d.
Proof. apply pg_insert_activity_log_keeps. Qed.

Lemma sendMessage_keeps body w :
  tickets (store (sendMessage body w).1) = tickets (store w)
  ∧ users (store (sendMessage body w).1) = users (store w)
  ∧ ticket_escalations (store (sendMessage body w).1) = ticket_escalations (store w)
  ∧ showResolutionOptions (ui (sendMessage body w).1) = showResolutionOptions (ui w)
  ∧ ticketData (ui (sendMessage body w).1) = ticketData (ui w).
Proof.
  destruct (userProfile (ui w)) as [u|] eqn:Hp;
    [|by rewrite sendMessage_signed_out].
  destruct (sendMessage_store body w u Hp)
    as [[-> ->]|[[-> ->]|(_ & _ & -> & ->)]]; [done..|].
  destruct (message_log_keeps u (ui w) (auth_uid w)
              (commit_ticket_message
                 (TicketMessage.mk (next_uuid (store w)) (Ticket.id (ticket (ui w)))
                    (User.id u) (trim body) (now (store w))) (store w)))
    as (-> & -> & _ & -> & _).
  done.
Qed.

Lemma handleResolutionChoice_resolved_keeps w :
  ticket_escalations (store (handleResolutionChoice resolved w).1)
  = ticket_escalations (store w)
  ∧ ticket_messages (store (handleResolutionChoice resolved w).1)
    = ticket_messages (store w)
  ∧ tickets (store (handleResolutionChoice resolved w).1)
    = tickets (store (updateTicketStatus "resolved" w).1)
  ∧ showResolutionOptions (ui (handleResolutionChoice resolved w).1) = false.
Proof.
  rewrite handleResolutionChoice_resolved_run. simpl.
  by destruct (updateTicketStatus_keeps "resolved" w) as (_ & -> & -> & _).
Qed.

(** ** The chat on the migrated store *)

Lemma step_migrated w w' :
  step w w' → as_migrated (store w) →
  as_migrated (store w')
  ∧ users (store w') = users (store w)
  ∧ tickets (store w') = tickets (store w)
  ∧ ticket_messages (store w') = ticket_messages (store w)
  ∧ ticket_escalations (store w') = ticket_escalations (store w)
  ∧ activity_logs (store w') = activity_logs (store w).
Proof.
  intros Hstep Hm. destruct Hstep; simpl.
  - by rewrite dispatch_migrated.
  - by rewrite loadMessages_store.
  - done.
  - done.
Qed.

(** X1. With the policies as the migrations create them the chat is
    inert: whatever buttons are clicked and messages submitted, however
    often the conversation is reloaded, whoever opens a chat and however
    much time passes, the users, tickets, messages, escalations and
    activity logs in the store are exactly what they were. *)
Theorem chat_writes_nothing_as_migrated (w w' : world) :
  rtc step w w' →
  as_migrated (store w) →
  users (store w') = users (store w)
  ∧ tickets (store w') = tickets (store w)
  ∧ ticket_messages (store w') = ticket_messages (store w)
  ∧ ticket_escalations (store w') = ticket_escalations (store w)
  ∧ activity_logs (store w') = activity_logs (store w).
Proof.
  induction 1 as [|w1 w2 w3 Hstep _ IH]; [done|].
  intros Hm.
  destruct (step_migrated w1 w2 Hstep Hm) as (Hm2 & E1 & E2 & E3 & E4 & E5).
  destruct (IH Hm2) as (F1 & F2 & F3 & F4 & F5).
  repeat split; congruence.
Qed.

Lemma chat_writes_nothing_as_migrated_witness :
  let w := open_chat (Demo.installation "open") Demo.sam (Demo.login_ticket "open") in
  let w' := (dispatch (SubmitMessage "Looking into it")
               (dispatch ClickCloseTicket w).1).1 in
  users (store w') = users (store w)
  ∧ tickets (store w') = tickets (store w)
  ∧ ticket_messages (store w') = ticket_messages (store w)
  ∧ ticket_escalations (store w') = ticket_escalations (store w)
  ∧ activity_logs (store w') = activity_logs (store w).
Proof.
  apply (chat_writes_nothing_as_migrated
           (open_chat (Demo.installation "open") Demo.sam (Demo.login_ticket "open"))).
  - eapply rtc_l; [apply (step_event ClickCloseTicket)|].
    apply rtc_once, (step_event (SubmitMessage "Looking into it")).
  - reflexivity.
Defined.

(** ** What the controls can and cannot do *)

Lemma updateTicketStatus_prompt s w :
  s ≠ "closed" ∨ isAdmin (ui w) = true →
  showResolutionOptions (ui (updateTicketStatus s w).1) = showResolutionOptions (ui w).
Proof.
  intros Hc. destruct (userProfile (ui w)) as [u|] eqn:Hp;
    [|by rewrite updateTicketStatus_signed_out].
  rewrite (updateTicketStatus_run s w u Hp).
  destruct (pg_update_ticket_status _ _ _ _) as [d [e|n]]; simpl; [done|].
  destruct Hc as [Hc|Hc].
  - by rewrite (bool_decide_eq_false_2 (s = "closed")).
  - unfold isAdmin in Hc. rewrite Hp in Hc.
    destruct (User.role u); [by vm_compute in Hc|..]; by rewrite andb_false_r.
Qed.

Lemma canCloseTicket_isAdmin c : canCloseTicket c = true → isAdmin c = true.
Proof. unfold canCloseTicket. by intros [? _]%andb_true_iff. Qed.

Lemma dispatch_prompt_hidden e w :
  showResolutionOptions (ui w) = false →
  showResolutionOptions (ui (dispatch e w).1) = false
  ∧ ticket_escalations (store (dispatch e w).1) = ticket_escalations (store w).
Proof.
  intros Hs. unfold dispatch, mbind, js_bind, get_ui. simpl. destruct e.
  - destruct (canCloseTicket (ui w)) eqn:E; [|done].
    rewrite updateTicketStatus_prompt by (right; by apply canCloseTicket_isAdmin).
    by destruct (updateTicketStatus_keeps "closed" w) as (_ & _ & -> & _).
  - destruct (canReopenTicket (ui w)) eqn:E; [|done].
    rewrite updateTicketStatus_prompt by (by left).
    by destruct (updateTicketStatus_keeps "open" w) as (_ & _ & -> & _).
  - by rewrite Hs.
  - by rewrite Hs.
  - destruct (canSubmitMessage (ui w)); [|done].
    unfold handleSubmit. case_bool_decide; [done|].
    unfold mbind, js_bind, set_form, set_ui. simpl.
    match goal with |- context [sendMessage ?b ?x] =>
      destruct (sendMessage_keeps b x) as (_ & _ & -> & -> & _) end.
    done.
Qed.

Lemma dispatch_statuses e w id s :
  showResolutionOptions (ui w) = false →
  stored_status (dispatch e w).1 id = Some s →
  stored_status w id = Some s ∨ s = "open" ∨ s = "closed".
Proof.
  intros Hs. unfold stored_status, dispatch, mbind, js_bind, get_ui. simpl.
  destruct e.
  - destruct (canCloseTicket (ui w)); [|by left].
    destruct (updateTicketStatus_tickets "closed" w) as [->|(t & _ & -> & _)];
      [by left|].
    rewrite lookup_insert. case_decide; [|by left].
    intros [= <-]. by right; right.
  - destruct (canReopenTicket (ui w)); [|by left].
    destruct (updateTicketStatus_tickets "open" w) as [->|(t & _ & -> & _)];
      [by left|].
    rewrite lookup_insert. case_decide; [|by left].
    intros [= <-]. by right; left.
  - rewrite Hs. by left.
  - rewrite Hs. by left.
  - destruct (canSubmitMessage (ui w)); [|by left].
    unfold handleSubmit. case_bool_decide; [by left|].
    unfold mbind, js_bind, set_form, set_ui. simpl.
    match goal with |- context [sendMessage ?b ?x] =>
      destruct (sendMessage_keeps b x) as (-> & _) end.
    by left.
Qed.

Lemma step_prompt_hidden w w' :
  step w w' → showResolutionOptions (ui w) = false →
  showResolutionOptions (ui w') = false
  ∧ ticket_escalations (store w') = ticket_escalations (store w).
Proof.
  intros Hstep Hs. destruct Hstep; [by apply dispatch_prompt_hidden| |done..].
  rewrite loadMessages_run. by destruct (pg_select_ticket_messages _ _ _).
Qed.

(** X2. Starting from a chat whose resolution prompt is hidden (as it is
    when a chat is opened), no sequence of button clicks, form
    submissions, reloads, waiting and re-opening of chats ever shows the
    prompt, and the escalation table stays exactly as it was: the close
    button, the only control asking for [closed], is offered to staff,
    and the prompt is raised for customers only. *)
Theorem controls_never_escalate (w w' : world) :
  rtc step w w' →
  showResolutionOptions (ui w) = false →
  showResolutionOptions (ui w') = false
  ∧ ticket_escalations (store w') = ticket_escalations (store w).
Proof.
  induction 1 as [|w1 w2 w3 Hstep _ IH]; [done|].
  intros Hs. destruct (step_prompt_hidden w1 w2 Hstep Hs) as [Hs2 He2].
  destruct (IH Hs2) as [Hs3 He3]. split; [done | congruence].
Qed.

Lemma controls_never_escalate_witness :
  let w := open_chat (Demo.installation "open") Demo.sam (Demo.login_ticket "open") in
  showResolutionOptions (ui (dispatch ClickMarkUnresolved (dispatch ClickCloseTicket w).1).1)
  = false
  ∧ ticket_escalations
      (store (dispatch ClickMarkUnresolved (dispatch ClickCloseTicket w).1).1)
    = [].
Proof.
  apply (controls_never_escalate
           (open_chat (Demo.installation "open") Demo.sam (Demo.login_ticket "open"))).
  - eapply rtc_l; [apply (step_event ClickCloseTicket)|].
    apply rtc_once, (step_event ClickMarkUnresolved).
  - reflexivity.
Defined.

(** X3. Under the same condition, the status the store holds for a
    ticket after any such sequence is the one it held before, or [open],
    or [closed]: the controls never store [resolved] or [unresolved]. *)
Theorem controls_reach_open_and_closed_only (w w' : world) (id : nat) (s : string) :
  rtc step w w' →
  showResolutionOptions (ui w) = false →
  stored_status w' id = Some s →
  stored_status w id = Some s ∨ s = "open" ∨ s = "closed".
Proof.
  intros Hrtc. revert s. induction Hrtc as [|w1 w2 w3 Hstep _ IH]; [by left|].
  intros s Hs H3.
  destruct (step_prompt_hidden w1 w2 Hstep Hs) as [Hs2 _].
  destruct (IH s Hs2 H3) as [H2|H2]; [|by right].
  destruct Hstep; simpl in *; [by apply (dispatch_statuses e w id s)| |by left..].
  left. unfold stored_status in *. by rewrite loadMessages_store in H2.
Qed.

Lemma controls_reach_open_and_closed_only_witness :
  let w := open_chat (Demo.installation "closed") Demo.sam (Demo.login_ticket "closed") in
  stored_status w 100 = Some "closed" ∨ "closed" = "open" ∨ "closed" = "closed".
Proof.
  apply (controls_reach_open_and_closed_only
           (open_chat (Demo.installation "closed") Demo.sam (Demo.login_ticket "closed"))
           (dispatch ClickReopenTicket
              (open_chat (Demo.installation "closed") Demo.sam
                 (Demo.login_ticket "closed"))).1).
  - apply rtc_once, (step_event ClickReopenTicket).
  - reflexivity.
  - reflexivity.
Defined.

(** X5. While the component holds no profile, nothing it offers writes to
    the store: no control and no direct call of a handler changes a
    table.  The "unresolved" choice then ends in the handler's own catch
    branch, which leaves one line on the console. *)
Theorem no_profile_no_writes (w : world) :
  userProfile (ui w) = None →
  (∀ e, store (dispatch e w).1 = store w)
  ∧ (∀ body, sendMessage body w = (w, Returned ()))
  ∧ (∀ s, updateTicketStatus s w = (w, Returned ()))
  ∧ store (handleResolutionChoice resolved w).1 = store w
  ∧ store (handleResolutionChoice unresolved w).1 = store w
  ∧ length (console (handleResolutionChoice unresolved w).1) = S (length (console w)).
Proof.
  intros Hp.
  assert (∀ s, updateTicketStatus s w = (w, Returned ())) as Hus
    by (intros; by apply updateTicketStatus_signed_out).
  assert (∀ body x, userProfile (ui x) = None → sendMessage body x = (x, Returned ()))
    as Hsm by (intros; by apply sendMessage_signed_out).
  assert (store (handleResolutionChoice resolved w).1 = store w) as Hr
    by (rewrite handleResolutionChoice_resolved_run; simpl; by rewrite Hus).
  assert (store (handleResolutionChoice unresolved w).1 = store w) as Hn
    by by rewrite handleResolutionChoice_unresolved_signed_out.
  repeat split; try done.
  - intros e. unfold dispatch, mbind, js_bind, get_ui. simpl.
    unfold canCloseTicket, canReopenTicket, isAdmin. rewrite Hp. simpl.
    destruct e; try done.
    + by destruct (showResolutionOptions (ui w)).
    + by destruct (showResolutionOptions (ui w)).
    + destruct (canSubmitMessage (ui w)); [|done].
      unfold handleSubmit. case_bool_decide; [done|].
      unfold mbind, js_bind, set_form, set_ui. simpl. by rewrite Hsm.
  - intros. by apply Hsm.
  - rewrite handleResolutionChoice_unresolved_signed_out by done. simpl.
    rewrite length_app. simpl. lia.
Qed.

Lemma no_profile_no_writes_witness :
  let live := open_chat (Demo.installation "closed") Demo.ada (Demo.login_ticket "closed") in
  let w := mk_world (store live) (auth_uid live)
             (mk_component (ticket (ui live)) None [] true false (ticketData (ui live))
                true "" None) [] in
  store (dispatch ClickMarkUnresolved w).1 = store w
  ∧ length (console (handleResolutionChoice unresolved w).1) = 1.
Proof.
  set (w := mk_world (Demo.installation "closed") (Some 10)
              (mk_component (Demo.login_ticket "closed") None [] true false
                 (Demo.login_ticket "closed") true "" None) []).
  destruct (no_profile_no_writes w eq_refl) as (H1 & _ & _ & _ & _ & H2).
  split; [apply H1 | exact H2].
Defined.

(** ** What gets stored as a message, and who sees it *)

Lemma trimStart_head s :
  trimStart s = "" ∨ ∃ c r, trimStart s = String c r ∧ is_whitespace c = false.
Proof.
  induction s as [|c r IH]; simpl; [by left|].
  destruct (is_whitespace c) eqn:E; [exact IH | right; eauto].
Qed.

Lemma trimEnd_head c r :
  is_whitespace c = false → ∃ r', trimEnd (String c r) = String c r'.
Proof. intros E. simpl. rewrite E. destruct (trimEnd r); eauto. Qed.

Lemma trimEnd_idemp s : trimEnd (trimEnd s) = trimEnd s.
Proof.
  induction s as [|c r IH]; [done|]. simpl.
  destruct (trimEnd r) as [|a b] eqn:E.
  - destruct (is_whitespace c) eqn:Ec; [done|]. simpl. by rewrite Ec.
  - simpl in *. by rewrite IH.
Qed.

Lemma trim_idemp s : trim (trim s) = trim s.
Proof.
  unfold trim. destruct (trimStart_head s) as [->|(c & r & -> & Hc)]; [done|].
  destruct (trimEnd_head c r Hc) as [r' E]. rewrite E.
  change (trimStart (String c r')) with
    (if is_whitespace c then trimStart r' else String c r').
  rewrite Hc, <- E. apply trimEnd_idemp.
Qed.

Lemma new_message_of_sendMessage body w m :
  m ∈ ticket_messages (store (sendMessage body w).1) →
  m ∉ ticket_messages (store w) →
  ∃ u, userProfile (ui w) = Some u
       ∧ blank body = false
       ∧ policy_messages_insert (store w) (auth_uid w) (Ticket.id (ticket (ui w)))
           (User.id u) = true
       ∧ m = TicketMessage.mk (next_uuid (store w)) (Ticket.id (ticket (ui w)))
               (User.id u) (trim body) (now (store w)).
Proof.
  intros Hin Hnot. destruct (userProfile (ui w)) as [u|] eqn:Hp;
    [|by rewrite sendMessage_signed_out in Hin].
  exists u. destruct (sendMessage_store body w u Hp)
    as [[E _]|[[E _]|(Hb & Hpol & E & _)]];
    rewrite E in Hin; [done..|].
  destruct (message_log_keeps u (ui w) (auth_uid w)
              (commit_ticket_message
                 (TicketMessage.mk (next_uuid (store w)) (Ticket.id (ticket (ui w)))
                    (User.id u) (trim body) (now (store w))) (store w)))
    as (_ & _ & Em & _).
  rewrite Em in Hin. simpl in Hin.
  apply elem_of_app in Hin as [Hin|Hin]; [done|].
  apply list_elem_of_singleton in Hin. done.
Qed.

(** X6. The text [sendMessage] stores is the trimmed body: a message it
    adds to the store is never blank and carries no white space at
    either end (trimming it again changes nothing). *)
Theorem stored_message_is_trimmed (body : string) (w : world) (m : TicketMessage.t) :
  m ∈ ticket_messages (store (sendMessage body w).1) →
  m ∉ ticket_messages (store w) →
  TicketMessage.message m = trim body
  ∧ blank (TicketMessage.message m) = false
  ∧ trim (TicketMessage.message m) = TicketMessage.message m.
Proof.
  intros Hin Hnot.
  destruct (new_message_of_sendMessage body w m Hin Hnot) as (u & _ & Hb & _ & ->).
  simpl. split; [done|]. split; [|apply trim_idemp].
  destruct (blank (trim body)) eqn:E; [|done].
  apply trim_empty_iff in E. rewrite trim_idemp in E.
  apply trim_empty_iff in E. congruence.
Qed.

Lemma stored_message_is_trimmed_witness :
  let w := open_chat (Demo.untangled "open") Demo.ada (Demo.login_ticket "open") in
  let m := TicketMessage.mk 1000 100 10 "It still fails" 7 in
  TicketMessage.message m = trim "  It still fails  "
  ∧ blank (TicketMessage.message m) = false
  ∧ trim (TicketMessage.message m) = TicketMessage.message m.
Proof.
  apply (stored_message_is_trimmed "  It still fails  "
           (open_chat (Demo.untangled "open") Demo.ada (Demo.login_ticket "open"))).
  - apply list_elem_of_singleton. reflexivity.
  - apply not_elem_of_nil.
Defined.

(** X7. A message [sendMessage] adds to the store is filed under the id of
    the session's own user, on the chat's ticket, and that user is the
    ticket's customer or a member of staff: nobody posts in another
    user's name or on a ticket closed to them. *)
Theorem stored_message_author (body : string) (w : world) (m : TicketMessage.t) :
  m ∈ ticket_messages (store (sendMessage body w).1) →
  m ∉ ticket_messages (store w) →
  auth_uid w = Some (TicketMessage.user_id m)
  ∧ TicketMessage.ticket_id m = Ticket.id (ticket (ui w))
  ∧ ∃ t u, tickets (store w) !! TicketMessage.ticket_id m = Some t
           ∧ users (store w) !! TicketMessage.user_id m = Some u
           ∧ (Ticket.customer_id t = TicketMessage.user_id m
              ∨ is_staff (User.role u) = true).
Proof.
  intros Hin Hnot.
  destruct (new_message_of_sendMessage body w m Hin Hnot) as (u & _ & _ & Hpol & ->).
  simpl. unfold policy_messages_insert, ticket_accessible, current_user in Hpol.
  apply andb_true_iff in Hpol as [Hu Hacc].
  apply bool_decide_eq_true_1 in Hu. rewrite <- Hu in Hacc. simpl in Hacc.
  split; [done|]. split; [done|].
  destruct (tickets (store w) !! Ticket.id (ticket (ui w))) as [t|]; [|done].
  destruct (users (store w) !! User.id u) as [p|]; [|done].
  exists t, p. repeat split; try done.
  apply orb_true_iff in Hacc as [Hc|Hs]; [left | by right].
  by apply bool_decide_eq_true_1 in Hc.
Qed.

Lemma stored_message_author_witness :
  let w := open_chat (Demo.untangled "open") Demo.sam (Demo.login_ticket "open") in
  auth_uid w = Some 20
  ∧ 100 = Ticket.id (ticket (ui w))
  ∧ ∃ t u, tickets (store w) !! 100 = Some t
           ∧ users (store w) !! 20 = Some u
           ∧ (Ticket.customer_id t = 20 ∨ is_staff (User.role u) = true).
Proof.
  apply (stored_message_author "Looking into it"
           (open_chat (Demo.untangled "open") Demo.sam (Demo.login_ticket "open"))
           (TicketMessage.mk 1000 100 20 "Looking into it" 7)).
  - apply list_elem_of_singleton. reflexivity.
  - apply not_elem_of_nil.
Defined.

Lemma filter_all {A} (P : A → Prop) `{∀ x, Decision (P x)} (l : list A) :
  Forall P l → filter P l = l.
Proof.
  induction 1 as [|x l Hx _ IH]; [done|].
  rewrite filter_cons. case_decide; [by rewrite IH | done].
Qed.

Lemma filter_none {A} (P : A → Prop) `{∀ x, Decision (P x)} (l : list A) :
  Forall (λ x, ¬ P x) l → filter P l = [].
Proof.
  induction 1 as [|x l Hx _ IH]; [done|].
  rewrite filter_cons. by case_decide.
Qed.

(** X8. Loading the conversation shows a customer nothing of a ticket
    that is not theirs: the list becomes empty or stays as it was,
    whatever the store holds for the ticket, and nothing is written. *)
Theorem outsider_sees_no_messages (w : world) (u : User.t) (t : Ticket.t) :
  signed_in w u → User.role u = customer →
  tickets (store w) !! Ticket.id (ticket (ui w)) = Some t →
  Ticket.customer_id t ≠ User.id u →
  (messages (ui (loadMessages w).1) = []
   ∨ messages (ui (loadMessages w).1) = messages (ui w))
  ∧ store (loadMessages w).1 = store w.
Proof.
  intros H Hc Ht Hne. pose proof H as (Hu & Hr & _).
  split; [|apply loadMessages_store].
  rewrite loadMessages_run. unfold pg_select_ticket_messages.
  destruct (policy_recursion (store w) (auth_uid w)); [by right|]. left. simpl.
  rewrite filter_none; [done|].
  apply Forall_forall. intros m Hm. apply list_elem_of_filter in Hm as [Hm _].
  unfold policy_messages_select, ticket_accessible, current_user.
  rewrite Hm, Ht, Hu. simpl. rewrite Hr, Hc. simpl.
  rewrite bool_decide_eq_false_2 by done. done.
Qed.

Lemma outsider_sees_no_messages_witness :
  let stale := TicketMessage.mk 900 100 11 "me too" 3 in
  let w := mk_world Demo.conversation (Some 11)
             (mk_component (Demo.login_ticket "open") (Some Demo.bob) [stale] true false
                (Demo.login_ticket "open") false "" None) [] in
  (messages (ui (loadMessages w).1) = [] ∨ messages (ui (loadMessages w).1) = [stale])
  ∧ store (loadMessages w).1 = Demo.conversation.
Proof.
  apply (outsider_sees_no_messages
           (mk_world Demo.conversation (Some 11)
              (mk_component (Demo.login_ticket "open") (Some Demo.bob)
                 [TicketMessage.mk 900 100 11 "me too" 3] true false
                 (Demo.login_ticket "open") false "" None) [])
           Demo.bob (Demo.login_ticket "open")).
  - repeat split; reflexivity.
  - reflexivity.
  - reflexivity.
  - discriminate.
Defined.

(** * Signing in *)

(** X11. With the policies as the migrations create them nobody signs in:
    whatever address, password and key are entered, [signIn] answers with
    an error, and it leaves the store as it was. *)
Theorem signIn_never_succeeds (accounts : gmap string (string * nat))
    (email password : string) (key : option string) (s : site) :
  as_migrated (site_store s) →
  (signIn accounts email password key s).2 ≠ None
  ∧ site_store (signIn accounts email password key s).1 = site_store s.
Proof.
  intros Hm. unfold signIn.
  destruct (signInWithPassword accounts email password) as [m| |id]; [done..|].
  by rewrite pg_select_user_recursion by by apply as_migrated_recursion.
Qed.

Lemma signIn_never_succeeds_witness :
  (signIn Desk.accounts "sam@desk.test" "battery staple" (Some "k-sam")
     Desk.front_door).2 ≠ None
  ∧ site_store (signIn Desk.accounts "sam@desk.test" "battery staple" (Some "k-sam")
                  Desk.front_door).1
    = site_store Desk.front_door.
Proof.
  apply (signIn_never_succeeds Desk.accounts "sam@desk.test" "battery staple"
           (Some "k-sam") Desk.front_door).
  reflexivity.
Defined.

(** X12. A sign-in that fails from a signed-out browser leaves everything
    as it was: nobody is signed in afterwards and the store is untouched,
    whichever check refused (provider, missing profile, access key). *)
Theorem signIn_failure_changes_nothing (accounts : gmap string (string * nat))
    (email password : string) (key : option string) (s : site) :
  site_uid s = None →
  (signIn accounts email password key s).2 ≠ None →
  (signIn accounts email password key s).1 = s.
Proof.
  intros Hu. destruct s as [d uid]. simpl in Hu. subst uid.
  unfold signIn. destruct (signInWithPassword accounts email password); [done..|].
  destruct (pg_select_user _ _ _) as [e|p]; [done|].
  by destruct (_ && _).
Qed.

Lemma signIn_failure_changes_nothing_witness :
  (signIn Desk.accounts "ghost@acme.test" "nobody home" None Desk.front_door).1
  = Desk.front_door.
Proof.
  apply signIn_failure_changes_nothing; [reflexivity|].
  vm_compute. discriminate.
Defined.



(** * Routes *)

(** X16. A dashboard is rendered on its own route and for its own
    audience only: the staff dashboard for a loaded session whose profile
    has a staff role, the customer dashboard for one whose profile is a
    customer's. *)
Theorem dashboards_guarded (ctx : AuthContext.t) (r : route) :
  (AppRoutes ctx r = Render AdminDashboard →
   r = route_admin_dashboard
   ∧ AuthContext.loading ctx = false
   ∧ is_Some (AuthContext.user ctx)
   ∧ ∃ p, AuthContext.userProfile ctx = Some p ∧ is_staff (User.role p) = true)
  ∧ (AppRoutes ctx r = Render CustomerDashboard →
     r = route_dashboard
     ∧ AuthContext.loading ctx = false
     ∧ is_Some (AuthContext.user ctx)
     ∧ ∃ p, AuthContext.userProfile ctx = Some p ∧ User.role p = customer).
Proof.
  unfold AppRoutes, ProtectedRoute.
  destruct (AuthContext.loading ctx); [done|].
  destruct (AuthContext.user ctx) as [i|].
  - rewrite bool_decide_eq_true_2 by done.
    destruct (AuthContext.userProfile ctx) as [p|]; [|by destruct r].
    split; intros H; destruct r; try done;
      destruct (User.role p) eqn:E; try (by vm_compute in H);
      (split; [done|]; split; [done|]; split; [by eexists|];
       exists p; by rewrite E).
  - rewrite bool_decide_eq_false_2 by (by intros [? ?]).
    split; intros H; by destruct r.
Qed.

Lemma dashboards_guarded_witness :
  route_admin_dashboard = route_admin_dashboard
  ∧ false = false
  ∧ is_Some (Some 20)
  ∧ ∃ p, Some Demo.sam = Some p ∧ is_staff (User.role p) = true.
Proof.
  apply (proj1 (dashboards_guarded
                  (AuthContext.mk (Some 20) (Some Demo.sam) false)
                  route_admin_dashboard)).
  reflexivity.
Defined.

(** X17. With a session and its profile loaded, every route ends, after
    at most two redirects, on the dashboard of the profile's role: the
    customer dashboard for a customer, the staff dashboard otherwise. *)
Theorem navigation_settles (ctx : AuthContext.t) (i : nat) (p : User.t) (r : route) :
  AuthContext.loading ctx = false →
  AuthContext.user ctx = Some i →
  AuthContext.userProfile ctx = Some p →
  settle 2 ctx r
  = Render (if bool_decide (User.role p = customer)
            then CustomerDashboard else AdminDashboard).
Proof.
  intros Hl Hu Hp. destruct ctx as [u q l]. simpl in *. subst.
  destruct r, (User.role p) eqn:E;
    unfold settle, AppRoutes, ProtectedRoute, getDashboardRoute, dashboardPath;
    simpl; rewrite ?E; reflexivity.
Qed.

Lemma navigation_settles_witness :
  settle 2 (AuthContext.mk (Some 10) (Some Demo.ada) false) route_admin_dashboard
  = Render CustomerDashboard.
Proof.
  apply (navigation_settles (AuthContext.mk (Some 10) (Some Demo.ada) false)
           10 Demo.ada route_admin_dashboard); reflexivity.
Defined.

(** X18. Without a session, no route shows a dashboard: the two protected
    routes end on the customer sign-in form, the public pages are shown
    as they are, and anything else ends on the home page. *)
Theorem visitor_never_sees_dashboard (ctx : AuthContext.t) (r : route) :
  AuthContext.loading ctx = false →
  AuthContext.user ctx = None →
  settle 2 ctx r
  = Render match r with
           | route_root | route_other => HomePage
           | route_login | route_dashboard | route_admin_dashboard =>
               LoginFormPage false
           | route_signup => SignupForm
           | route_admin_login => LoginFormPage true
           end.
Proof.
  intros Hl Hu. destruct ctx as [u q l]. simpl in *. subst.
  by destruct r.
Qed.

Lemma visitor_never_sees_dashboard_witness :
  settle 2 (AuthContext.mk None None false) route_admin_dashboard
  = Render (LoginFormPage false).
Proof.
  apply (visitor_never_sees_dashboard (AuthContext.mk None None false)
           route_admin_dashboard); reflexivity.
Defined.

(** X19. A session whose profile could not be loaded sees no page at all:
    every route is a redirect, the sign-in routes redirect to the sign-in
    route itself, and following redirects never arrives anywhere. *)
Theorem session_without_profile_renders_nothing (ctx : AuthContext.t) (i : nat)
    (hops : nat) (r : route) :
  AuthContext.loading ctx = false →
  AuthContext.user ctx = Some i →
  AuthContext.userProfile ctx = None →
  AppRoutes ctx route_login = Navigate route_login
  ∧ ∃ to, settle hops ctx r = Navigate to.
Proof.
  intros Hl Hu Hp. destruct ctx as [u q l]. simpl in *. subst.
  split; [done|].
  revert r. induction hops as [|n IH]; intros r.
  - destruct r; simpl; eauto.
  - destruct r; simpl; apply IH.
Qed.

Lemma session_without_profile_renders_nothing_witness :
  AppRoutes (AuthContext.mk (Some 99) None false) route_login = Navigate route_login
  ∧ ∃ to, settle 5 (AuthContext.mk (Some 99) None false) route_dashboard = Navigate to.
Proof.
  apply (session_without_profile_renders_nothing
           (AuthContext.mk (Some 99) None false) 99 5 route_dashboard); reflexivity.
Defined.

(** * Search boxes and status filters *)

Lemma startsWith_empty s : startsWith s "" = true.
Proof. by destruct s. Qed.

Lemma includes_empty s : includes s "" = true.
Proof. destruct s; simpl; [done|]. done. Qed.

Lemma startsWith_refl s : startsWith s s = true.
Proof. induction s as [|c r IH]; simpl; [done|]. by rewrite bool_decide_eq_true_2. Qed.

Lemma includes_refl s : includes s s = true.
Proof. destruct s; simpl; [done|]. by rewrite bool_decide_eq_true_2, startsWith_refl. Qed.

Lemma startsWith_app s a b : startsWith s (a +:+ b) = true → startsWith s a = true.
Proof.
  revert s. induction a as [|c a IH]; intros s; simpl; [by rewrite startsWith_empty|].
  destruct s as [|d s]; [done|]. simpl.
  intros [? ?]%andb_true_iff. apply andb_true_iff. eauto.
Qed.

Lemma includes_app s a b : includes s (a +:+ b) = true → includes s a = true.
Proof.
  induction s as [|d s IH].
  - cbn [includes]. rewrite !orb_false_r. apply startsWith_app.
  - cbn [includes]. intros [H|H]%orb_true_iff; apply orb_true_iff.
    + left. by apply (startsWith_app _ a b).
    + right. by apply IH.
Qed.

Lemma toLowerCase_app a b : toLowerCase (a +:+ b) = toLowerCase a +:+ toLowerCase b.
Proof. induction a as [|c a IH]; simpl; [done|]. by rewrite IH. Qed.

Lemma toLowerCase_char_idemp c :
  toLowerCase_char (toLowerCase_char c) = toLowerCase_char c.
Proof. by destruct c as [[] [] [] [] [] [] [] []]. Qed.

Lemma toLowerCase_idemp s : toLowerCase (toLowerCase s) = toLowerCase s.
Proof.
  induction s as [|c r IH]; simpl; [done|].
  by rewrite toLowerCase_char_idemp, IH.
Qed.

Lemma matches_empty field : matches field "" = true.
Proof. unfold matches. simpl. apply includes_empty. Qed.

Lemma matches_app field a b : matches field (a +:+ b) = true → matches field a = true.
Proof. unfold matches. rewrite toLowerCase_app. apply includes_app. Qed.

Lemma filter_sublist_impl {A} (P Q : A → Prop) `{∀ x, Decision (P x)}
    `{∀ x, Decision (Q x)} (l : list A) :
  (∀ x, P x → Q x) → filter P l `sublist_of` filter Q l.
Proof.
  intros HPQ. induction l as [|x l IH]; [done|].
  rewrite !filter_cons. destruct (decide (P x)) as [HP|HP].
  - rewrite decide_True by auto. by apply sublist_skip.
  - destruct (decide (Q x)); [by apply sublist_cons | done].
Qed.

(** X20. With the status filter on "all" and an empty search box the
    staff ticket list shows every loaded ticket, in the loaded order,
    also those whose customer row is missing. *)
Theorem filteredTickets_all (tickets : list TicketWithCustomer.t) :
  filteredTickets "all" "" tickets = tickets.
Proof.
  unfold filteredTickets. apply filter_all, Forall_forall. intros x _.
  simpl. by rewrite matches_empty.
Qed.

(** X21. Typing more into the search box never adds a ticket: the list
    for a longer term is contained, in order, in the list for any term
    it starts with. *)
Theorem typing_more_never_adds (filter_by searchTerm more : string)
    (tickets : list TicketWithCustomer.t) :
  filteredTickets filter_by (searchTerm +:+ more) tickets
  `sublist_of` filteredTickets filter_by searchTerm tickets.
Proof.
  unfold filteredTickets. apply filter_sublist_impl. intros x. simpl.
  intros [Hf Hs]%andb_true_iff. apply andb_true_iff. split; [done|].
  pose proof (λ f, matches_app f searchTerm more) as Hm.
  destruct (TicketWithCustomer.customer x) as [c|];
    rewrite !orb_true_iff in Hs |- *; intuition auto.
Qed.

(** X22. The user and admin searches ignore letter case: putting the
    term into lower case first gives the same lists, and a user is listed
    whenever the term is their full name or address up to case. *)
Theorem user_search_ignores_case (searchTerm : string)
    (users : list UserWithTickets.t) (admins : list User.t) :
  filteredUsers (toLowerCase searchTerm) users = filteredUsers searchTerm users
  ∧ filteredAdmins (toLowerCase searchTerm) admins = filteredAdmins searchTerm admins
  ∧ ∀ x, x ∈ users →
         toLowerCase (User.name (UserWithTickets.user x)) = toLowerCase searchTerm
         ∨ toLowerCase (User.email (UserWithTickets.user x)) = toLowerCase searchTerm →
         x ∈ filteredUsers searchTerm users.
Proof.
  split; [|split].
  - unfold filteredUsers, matches. by rewrite toLowerCase_idemp.
  - unfold filteredAdmins, matches. by rewrite toLowerCase_idemp.
  - intros x Hx H. apply list_elem_of_filter. split; [|done].
    unfold matches. apply orb_true_iff.
    destruct H as [-> | ->]; [left | right]; apply includes_refl.
Qed.

Lemma user_search_ignores_case_witness :
  UserWithTickets.mk Demo.ada []
  ∈ filteredUsers "ADA" [UserWithTickets.mk Demo.ada []; UserWithTickets.mk Demo.bob []].
Proof.
  apply (proj2 (proj2 (user_search_ignores_case "ADA"
                         [UserWithTickets.mk Demo.ada []; UserWithTickets.mk Demo.bob []]
                         []))).
  - apply list_elem_of_here.
  - left. reflexivity.
Defined.

(** * The chat's copy and the store *)

(** X24. For a signed-in member of staff the chat's copy of the status
    stays in agreement with the store: if the two agree before a status
    request on a stored ticket, they agree after it, whether the store
    applied the request or refused the value. *)
Theorem staff_copy_agrees_with_store (s : string) (w : world) (u : User.t)
    (t : Ticket.t) :
  signed_in w u → is_staff (User.role u) = true →
  tickets (store w) !! Ticket.id (ticket (ui w)) = Some t →
  Ticket.status (ticketData (ui w)) = Ticket.status t →
  stored_status (updateTicketStatus s w).1 (Ticket.id (ticket (ui w)))
  = Some (Ticket.status (ticketData (ui (updateTicketStatus s w).1))).
Proof.
  intros H Hs Ht Hag. pose proof H as (Hu & Hr & Hp).
  destruct (policy_recursion (store w) (auth_uid w)) eqn:Hn.
  { rewrite updateTicketStatus_recursion by done. unfold stored_status. simpl.
    by rewrite Ht, Hag. }
  destruct (tickets_status_check s) eqn:Hc.
  - unfold stored_status. rewrite (setStatus_staff s w u t H Hs Hn Ht Hc).
    rewrite lookup_insert_eq. simpl.
    rewrite (updateTicketStatus_run s w u Hp).
    unfold pg_update_ticket_status, policy_tickets_select, policy_tickets_update.
    rewrite Hn, Ht, Hu. rewrite <- Hu, (signed_in_role w u _ H), Hs, Hc.
    by rewrite orb_true_r.
  - unfold stored_status.
    rewrite (updateTicketStatus_run s w u Hp).
    unfold pg_update_ticket_status, policy_tickets_select, policy_tickets_update.
    rewrite Hn, Ht, Hu. rewrite <- Hu, (signed_in_role w u _ H), Hs, Hc.
    rewrite orb_true_r. simpl. by rewrite Ht, Hag.
Qed.

Lemma staff_copy_agrees_with_store_witness :
  let w := open_chat (Demo.installation "open") Demo.sam (Demo.login_ticket "open") in
  stored_status (updateTicketStatus "archived" w).1 100
  = Some (Ticket.status (ticketData (ui (updateTicketStatus "archived" w).1))).
Proof.
  apply (staff_copy_agrees_with_store "archived"
           (open_chat (Demo.installation "open") Demo.sam (Demo.login_ticket "open"))
           Demo.sam (Demo.login_ticket "open")).
  - repeat split; reflexivity.
  - reflexivity.
  - reflexivity.
  - reflexivity.
Defined.
